(** * kraken: segmentation evaluation (ketos segtest) and repolygonize

    A shallow embedding of two commands of the kraken fork:

    - [kraken/ketos.py], function [segtest]: the evaluation loop over the
      pages of a test set, the per-page statistics, their aggregation with
      [torch.stack(...).sum(...)], the derived metrics and the overlap table;
    - [kraken/contrib/repolygonize.py], function [cli]: the per-document
      loop that recomputes line polygons and re-inserts [None] for the
      lines that carry no baseline.

    Conventions of the embedding.

    - A tensor of booleans or numbers is a list of rows ([tensor2]) or a
      list of grids ([tensor3]); the batch dimension, always of size one
      ([batch_size=1]), is dropped.  [pred.squeeze()] is taken to drop
      that dimension only: the model has at least two classes and its
      output is at least two pixels high and wide.  Rows of one tensor
      have one length; on lists that are not of this kind the elementwise
      operations stop at the shorter row.
    - [torch.double] sums of boolean masks are integer valued; they are
      kept as [Z] (a double is exact on them below [2^53]).  Quotients are
      taken in [Q]; a division whose divisor is zero gives [None], which
      stands for torch's [nan] and [inf].  Rounding of the quotient to a
      double is not modelled.
    - Python exceptions are the [Raise] outcomes of the [result] monad.
    - Of [segtest] the part from the class mapping on is embedded; the
      loading of the model and of the test set, the messages and the
      per-class table [out] (which reads [test_set.class_stats]) are
      left out. *)

From Stdlib Require Import String Ascii DecimalString.
From Stdlib Require DecimalZ DecimalPos.
From Stdlib Require Import List ZArith QArith Qround Lia Lqa Bool Arith Permutation.
Import ListNotations.

Open Scope Z_scope.

(** ** Exceptions and the result monad *)

Inductive exn : Type :=
| RuntimeError
| IndexError
| KeyError
| AssertionError
| UsageError
| FileNotFoundError
| KrakenInputException.

Inductive result (A : Type) : Type :=
| Ok (a : A)
| Raise (e : exn).

Arguments Ok {A} a.
Arguments Raise {A} e.

Definition bind {A B : Type} (r : result A) (f : A -> result B) : result B :=
  match r with
  | Ok a => f a
  | Raise e => Raise e
  end.

Notation "x <- r ;; k" := (bind r (fun x => k))
  (at level 61, r at next level, right associativity).

Fixpoint mapM {A B : Type} (f : A -> result B) (l : list A) : result (list B) :=
  match l with
  | [] => Ok []
  | a :: l' => b <- f a ;; bs <- mapM f l' ;; Ok (b :: bs)
  end.

Fixpoint foldM {A S : Type} (f : S -> A -> result S) (l : list A) (s : S) : result S :=
  match l with
  | [] => Ok s
  | a :: l' => s' <- f s a ;; foldM f l' s'
  end.

(** [enumerate(l)] *)
Definition enumerate {A : Type} (l : list A) : list (nat * A) :=
  combine (seq 0 (length l)) l.

(** [l[i]] on a Python list or a tensor's first dimension. *)
Definition getitem {A : Type} (l : list A) (i : nat) : result A :=
  match nth_error l i with
  | Some a => Ok a
  | None => Raise IndexError
  end.

(** ** repolygonize.py *)

(** An element of a baseline as the XML parsers give it: a point, or a
    bare integer as in the placeholder [[0, 0]]. *)
Inductive coord : Type :=
| CInt (z : Z)
| CPoint (x y : Z).

Definition baseline : Type := list coord.
Definition polygon : Type := list (Z * Z).

(** A line of [seg['lines']]; [x['baseline']] is a list or [None]. *)
Record line : Type := { line_baseline : option baseline }.

Definition coord_eqb (a b : coord) : bool :=
  match a, b with
  | CInt x, CInt y => x =? y
  | CPoint x1 y1, CPoint x2 y2 => (x1 =? x2) && (y1 =? y2)
  | _, _ => false
  end.

Fixpoint baseline_eqb (a b : baseline) : bool :=
  match a, b with
  | [], [] => true
  | x :: a', y :: b' => coord_eqb x y && baseline_eqb a' b'
  | _, _ => false
  end.

(** The literal [[0, 0]]. *)
Definition zero_zero : baseline := [CInt 0; CInt 0].

(** [bl = x['baseline'] if x['baseline'] is not None else [0, 0]] *)
Definition bl_of (x : line) : baseline :=
  match line_baseline x with
  | Some b => b
  | None => zero_zero
  end.

(** One iteration of [for line_idx, x in enumerate(seg['lines'])], on the
    pair of lists [(baselines, passed)]. *)
Definition classify (st : list baseline * list nat) (ix : nat * line)
  : list baseline * list nat :=
  let '(baselines, passed) := st in
  let '(line_idx, x) := ix in
  let bl := bl_of x in
  if baseline_eqb bl zero_zero then (baselines, passed ++ [line_idx])
  else if (0 <? length bl)%nat then (baselines ++ [bl], passed)
  else (baselines, passed ++ [line_idx]).

(** [o.insert(idx, x)]: an index past the end appends. *)
Definition list_insert {A : Type} (idx : nat) (x : A) (o : list A) : list A :=
  firstn idx o ++ x :: skipn idx o.

(** The body of [for doc in files] from the parsed lines on, up to the
    list handed to [repl_fn].  [calculate_polygonal_environment] lives in
    [kraken.lib.segmentation]; it is taken as a function of the baselines
    (image, scale, topline and regions are fixed for a document). *)
Definition cli_doc
    (calculate_polygonal_environment : list baseline -> list (option polygon))
    (lines : list line) : result (list (option polygon)) :=
  let '(baselines, passed) := fold_left classify (enumerate lines) ([], []) in
  let o := calculate_polygonal_environment baselines in
  let o := fold_left (fun o idx => list_insert idx None o) passed o in
  if (length o =? length lines)%nat then Ok o else Raise AssertionError.

(** The test that sends a line to [passed]. *)
Definition is_passed (x : line) : bool :=
  baseline_eqb (bl_of x) zero_zero || negb (0 <? length (bl_of x))%nat.

(** ** ketos.py, segtest: tensors *)

Definition tensor2 (A : Type) : Type := list (list A).
Definition tensor3 (A : Type) : Type := list (list (list A)).

(** [t.size(1)] of a tensor of shape [C, P]; on a tensor of shape
    [C, H, W] the height, which the source reads as [pred.size(2)] with
    the batch dimension in front. *)
Definition size1 {A : Type} (t : list (list A)) : nat := length (hd [] t).

(** The width of a tensor of shape [C, H, W], [pred.size(3)] in the
    source. *)
Definition size2 {A : Type} (t : tensor3 A) : nat := length (hd [] (hd [] t)).

(** [t.view(t.size(0), -1)] *)
Definition view {A : Type} (t : tensor3 A) : tensor2 A := map (@concat A) t.

(** [t.bool()]: every non-zero entry is [True]. *)
Definition to_bool (t : tensor3 Q) : tensor3 bool :=
  map (map (map (fun v => negb (Qeq_bool v 0)))) t.

(** [t > threshold] *)
Definition gt (t : tensor3 Q) (threshold : Q) : tensor3 bool :=
  map (map (map (fun v => negb (Qle_bool v threshold)))) t.

(** Source index of torch's nearest-neighbour resampling. *)
Definition nearest_index (in_size out_size dst : nat) : nat :=
  Nat.min (dst * in_size / out_size) (in_size - 1).

Definition resize_grid (h w : nat) (g : list (list Q)) : list (list Q) :=
  map (fun i =>
         let row := nth (nearest_index (length g) h i) g [] in
         map (fun j => nth (nearest_index (length row) w j) row 0%Q) (seq 0 w))
      (seq 0 h).

(** [F.interpolate(y, size=(h, w))] with its default mode, ['nearest'].
    torch refuses an input or an output with no pixel. *)
Definition interpolate (y : tensor3 Q) (h w : nat) : result (tensor3 Q) :=
  if (h =? 0)%nat || (w =? 0)%nat || (size1 y =? 0)%nat || (size2 y =? 0)%nat
  then Raise RuntimeError
  else Ok (map (resize_grid h w) y).

(** Elementwise operation on two vectors of the same length. *)
Definition zip_with {A B C : Type} (f : A -> B -> C) (a : list A) (b : list B) : list C :=
  map (fun ab => f (fst ab) (snd ab)) (combine a b).

(** Elementwise operation on two tensors of shapes [m, P] and [n, P] under
    torch's broadcasting of the first dimension: [m = n], or one of them
    is [1]; anything else raises. *)
Definition broadcast {A : Type} (f : A -> A -> A) (a b : tensor2 A) : result (tensor2 A) :=
  if (length a =? length b)%nat then Ok (zip_with (zip_with f) a b)
  else if (length b =? 1)%nat then Ok (map (fun r => zip_with f r (hd [] b)) a)
  else if (length a =? 1)%nat then Ok (map (fun r => zip_with f (hd [] a) r) b)
  else Raise RuntimeError.

(** Number of [True] entries of a boolean vector: [v.sum(dtype=torch.double)]. *)
Definition count (v : list bool) : Z :=
  fold_right (fun (b : bool) n => if b then n + 1 else n) 0 v.

(** [t.sum(dim=1, dtype=torch.double)] *)
Definition sum_dim1 (t : tensor2 bool) : list Z := map count t.

(** [t.sum(dim=0, dtype=torch.bool)] on [n] columns: the OR of the rows. *)
Definition any_dim0 (n : nat) (t : tensor2 bool) : list bool :=
  fold_right (zip_with orb) (repeat false n) t.

(** [t[idxs]] with a list of row indices. *)
Definition select (t : tensor2 bool) (idxs : list nat) : result (tensor2 bool) :=
  mapM (getitem t) idxs.

(** ** ketos.py, segtest: the statistics of one page *)

Record confusion : Type := {
  conf_intersections : tensor2 Z;
  conf_unions : tensor2 Z
}.

Record cat_stats : Type := {
  cat_intersections : Z;
  cat_unions : Z;
  cat_confusion : option confusion
}.

(** One entry of the list [pages]. *)
Record page : Type := {
  intersections : list Z;
  unions : list Z;
  corrects : list Z;
  cls_cnt : list Z;
  all_n : Z;
  baselines : option cat_stats;
  regions : option cat_stats
}.

(** [[subline_idx for subline_idx in classes_idx if subline_idx != line_idx]] *)
Definition others (classes_idx : list nat) (line_idx : nat) : list nat :=
  filter (fun subline_idx => negb (subline_idx =? line_idx)%nat) classes_idx.

(** One element of the list that [_compute_iou_overlap] stacks: the row
    of [line_idx], with [op] either [&] or [|]. *)
Definition overlap_row (op : bool -> bool -> bool) (classes_idx : list nat)
    (y pred : tensor2 bool) (line_idx : nat) : result (list Z) :=
  y_line <- getitem y line_idx ;;
  pred_others <- select pred (others classes_idx line_idx) ;;
  t <- broadcast op (repeat y_line (length classes_idx - 1)) pred_others ;;
  Ok (sum_dim1 t).

Definition _compute_iou_overlap (classes_idx : list nat) (y pred : tensor2 bool)
  : result confusion :=
  i <- mapM (overlap_row andb classes_idx y pred) classes_idx ;;
  u <- mapM (overlap_row orb classes_idx y pred) classes_idx ;;
  Ok {| conf_intersections := i; conf_unions := u |}.

(** The block under [if lines_idx:] (and the same block for regions). *)
Definition category_stats (idx : list nat) (y pred : tensor2 bool)
  : result (option cat_stats) :=
  match idx with
  | [] => Ok None
  | _ :: _ =>
      y_rows <- select y idx ;;
      let y_cat := any_dim0 (size1 y) y_rows in
      pred_rows <- select pred idx ;;
      let pred_cat := any_dim0 (size1 pred) pred_rows in
      conf <- (if (1 <? length idx)%nat
               then c <- _compute_iou_overlap idx y pred ;; Ok (Some c)
               else Ok None) ;;
      Ok (Some {| cat_intersections := count (zip_with andb y_cat pred_cat);
                  cat_unions := count (zip_with orb y_cat pred_cat);
                  cat_confusion := conf |})
  end.

(** A batch of the data loader: [batch['target']] and the outcome of the
    call [nn.nn(batch['image'])], the only call of the loop body into code
    outside this function that is not a tensor operation. *)
Record batch : Type := {
  nn_out : result (tensor3 Q);
  target : tensor3 Q
}.

(** The body of the [try] statement for one batch, up to the record that
    ends up in [pages]. *)
Definition page_stats (lines_idx regions_idx : list nat) (threshold : Q) (b : batch)
  : result page :=
  pred <- nn_out b ;;
  y <- interpolate (target b) (size1 pred) (size2 pred) ;;
  let y := to_bool y in
  let pred := gt pred threshold in
  let pred := view pred in
  let y := view y in
  i <- broadcast andb y pred ;;
  u <- broadcast orb y pred ;;
  c <- broadcast Bool.eqb y pred ;;
  bl <- category_stats lines_idx y pred ;;
  rg <- category_stats regions_idx y pred ;;
  Ok {| intersections := sum_dim1 i;
        unions := sum_dim1 u;
        corrects := sum_dim1 c;
        cls_cnt := sum_dim1 y;
        all_n := Z.of_nat (size1 y);
        baselines := bl;
        regions := rg |}.

(** ** ketos.py, segtest: the loop over the data loader *)

(** The variables the loop updates: the list [pages] and the counter
    [batches], the total shown by the progress bar. *)
Record loop_state : Type := {
  pages : list page;
  batches : Z
}.

(** One iteration of [for batch in ds_loader].  The two [except] clauses
    catch [FileNotFoundError] and [KrakenInputException]; any other
    exception leaves the loop.  The tensor operations of [page_stats]
    raise neither of the two, so a caught exception comes from [nn_out],
    before [pages.append]. *)
Definition loop_step (lines_idx regions_idx : list nat) (threshold : Q)
    (st : loop_state) (b : batch) : result loop_state :=
  match page_stats lines_idx regions_idx threshold b with
  | Ok p => Ok {| pages := pages st ++ [p]; batches := batches st |}
  | Raise FileNotFoundError => Ok {| pages := pages st; batches := batches st - 1 |}
  | Raise KrakenInputException => Ok {| pages := pages st; batches := batches st - 1 |}
  | Raise e => Raise e
  end.

Definition run_loop (lines_idx regions_idx : list nat) (threshold : Q)
    (ds_loader : list batch) : result loop_state :=
  foldM (loop_step lines_idx regions_idx threshold) ds_loader
        {| pages := []; batches := Z.of_nat (length ds_loader) |}.

(** ** ketos.py, segtest: aggregation over the pages *)

Definition zsum (l : list Z) : Z := fold_right Z.add 0 l.

(** [torch.stack(ts, -1).sum(dim=-1)] on vectors: [torch.stack] raises on
    an empty list and on tensors of different sizes. *)
Definition stack_sum (ts : list (list Z)) : result (list Z) :=
  match ts with
  | [] => Raise RuntimeError
  | t0 :: _ =>
      if forallb (fun t => (length t =? length t0)%nat) ts
      then Ok (map (fun c => zsum (map (fun t => nth c t 0) ts)) (seq 0 (length t0)))
      else Raise RuntimeError
  end.

(** [torch.stack(ts).sum()] on vectors: the sum of all entries. *)
Definition stack_sum_all (ts : list (list Z)) : result Z :=
  match ts with
  | [] => Raise RuntimeError
  | t0 :: _ =>
      if forallb (fun t => (length t =? length t0)%nat) ts
      then Ok (zsum (map zsum ts))
      else Raise RuntimeError
  end.

(** [torch.stack(ts).sum()] on scalars. *)
Definition stack_sum_scalars (ts : list Z) : result Z :=
  match ts with
  | [] => Raise RuntimeError
  | _ :: _ => Ok (zsum ts)
  end.

Definition shape (t : tensor2 Z) : list nat := map (@length Z) t.

Definition shape_eqb (s1 s2 : list nat) : bool :=
  if list_eq_dec Nat.eq_dec s1 s2 then true else false.

(** [torch.stack(ts, dim=-1).sum(dim=-1)] on matrices. *)
Definition stack_sum2 (ts : list (tensor2 Z)) : result (tensor2 Z) :=
  match ts with
  | [] => Raise RuntimeError
  | t0 :: _ =>
      if forallb (fun t => shape_eqb (shape t) (shape t0)) ts
      then Ok (map (fun i =>
                      map (fun j => zsum (map (fun t => nth j (nth i t []) 0) ts))
                          (seq 0 (length (nth i t0 []))))
                   (seq 0 (length t0)))
      else Raise RuntimeError
  end.

(** ** ketos.py, segtest: the metrics *)

(** [torch.finfo(torch.float).eps], two to the power -23. *)
Definition smooth : Q := 1 # 8388608.

(** A finite number, or [None] for [nan] and [inf]. *)
Definition tval : Type := option Q.

Definition tdiv (a b : Q) : tval :=
  if Qeq_bool b 0 then None else Some (a / b)%Q.

Definition tmul (a b : tval) : tval :=
  match a, b with
  | Some x, Some y => Some (x * y)%Q
  | _, _ => None
  end.

Definition tadd (a b : tval) : tval :=
  match a, b with
  | Some x, Some y => Some (x + y)%Q
  | _, _ => None
  end.

(** [t.sum()] *)
Definition tsum (l : list tval) : tval := fold_right tadd (Some 0%Q) l.

(** [torch.mean(t)]; the mean of an empty tensor is [nan]. *)
Definition tmean (l : list tval) : tval :=
  match tsum l with
  | Some s => tdiv s (inject_Z (Z.of_nat (length l)))
  | None => None
  end.

(** [(i + smooth) / (u + smooth)] *)
Definition iu (smooth : Q) (i u : Z) : tval :=
  tdiv (inject_Z i + smooth)%Q (inject_Z u + smooth)%Q.

Record metrics : Type := {
  class_pixel_accuracy : list tval;
  mean_accuracy : tval;
  class_iu : list tval;
  mean_iu : tval;
  freq_iu : tval
}.

(** Lines 1500 to 1517: from [pages] to the printed scalars. *)
Definition global_metrics (pages : list page) : result metrics :=
  corrects <- stack_sum (map corrects pages) ;;
  all_n <- stack_sum_scalars (map all_n pages) ;;
  let class_pixel_accuracy := map (fun c => tdiv (inject_Z c) (inject_Z all_n)) corrects in
  let mean_accuracy := tmean class_pixel_accuracy in
  intersections <- stack_sum (map intersections pages) ;;
  unions <- stack_sum (map unions pages) ;;
  let class_iu := zip_with (iu smooth) intersections unions in
  let mean_iu := tmean class_iu in
  cls_cnt <- stack_sum_all (map cls_cnt pages) ;;
  (* [cls_cnt] is a scalar here, so [cls_cnt.sum()] is [cls_cnt] itself and
     the outer [torch.sum] has a single value to add up. *)
  let freq_iu := tmul (tdiv (inject_Z cls_cnt) (inject_Z cls_cnt)) (tsum class_iu) in
  Ok {| class_pixel_accuracy := class_pixel_accuracy;
        mean_accuracy := mean_accuracy;
        class_iu := class_iu;
        mean_iu := mean_iu;
        freq_iu := freq_iu |}.

(** ** ketos.py, segtest: dictionaries and number formatting *)

(** A Python dict as the list of its items in insertion order. *)
Definition dict (K V : Type) : Type := list (K * V).

(** [d[k] = v]: an existing key keeps its place and takes the new value. *)
Fixpoint dict_set {K V : Type} (eqb : K -> K -> bool) (k : K) (v : V) (d : dict K V)
  : dict K V :=
  match d with
  | [] => [(k, v)]
  | (k', v') :: d' =>
      if eqb k' k then (k', v) :: d' else (k', v') :: dict_set eqb k v d'
  end.

(** [d[k]] *)
Fixpoint dict_get {K V : Type} (eqb : K -> K -> bool) (k : K) (d : dict K V) : result V :=
  match d with
  | [] => Raise KeyError
  | (k', v') :: d' => if eqb k' k then Ok v' else dict_get eqb k d'
  end.

(** [d.update(items)], also [dict(items)] and [{**d, **items}]. *)
Definition dict_update {K V : Type} (eqb : K -> K -> bool) (d : dict K V)
    (items : list (K * V)) : dict K V :=
  fold_left (fun d kv => dict_set eqb (fst kv) (snd kv) d) items d.

(** Rounding to the nearest integer, ties to even. *)
Definition round_half_even (q : Q) : Z :=
  let f := Qfloor q in
  match Qcompare (q - inject_Z f)%Q (1 # 2)%Q with
  | Lt => f
  | Gt => f + 1
  | Eq => if Z.even f then f else f + 1
  end.

Definition digit (d : Z) : string :=
  String (ascii_of_nat (48 + Z.to_nat d)) EmptyString.

(** [f"{q:.3f}"] on a finite number. *)
Definition format3 (q : Q) : string :=
  let n := round_half_even (q * 1000)%Q in
  let a := Z.abs n in
  ((if (n <? 0)%Z then "-" else "")
   ++ NilZero.string_of_uint (N.to_uint (Z.to_N (a / 1000)%Z))
   ++ "."
   ++ digit (a mod 1000 / 100)%Z ++ digit (a mod 100 / 10)%Z ++ digit (a mod 10)%Z)%string.

(** The cell of the overlap table:
    [f"{v:.3f}" if v != 1 else ""]. *)
Definition cell (v : tval) : string :=
  match v with
  | Some q => if Qeq_bool q 1 then ""%string else format3 q
  | None => "nan"%string
  end.

(** ** ketos.py, segtest: the overlap table *)

Inductive category : Type := Baselines | Regions.

(** [x[category]] on an entry of [pages]. *)
Definition page_category (cat : category) (x : page) : result cat_stats :=
  match (match cat with Baselines => baselines x | Regions => regions x end) with
  | Some s => Ok s
  | None => Raise KeyError
  end.

(** [x[category]["confusion"]] *)
Definition page_confusion (cat : category) (x : page) : result confusion :=
  s <- page_category cat x ;;
  match cat_confusion s with
  | Some c => Ok c
  | None => Raise KeyError
  end.

(** A row of the table: a dict from column header to cell. *)
Definition table_row : Type := dict string string.

(** [torch.stack([x[category]["confusion"][field] for x in pages],
    dim=-1).sum(dim=-1)] *)
Definition sum_confusion (field : confusion -> tensor2 Z) (cat : category)
    (pages : list page) : result (tensor2 Z) :=
  ts <- mapM (fun x => c <- page_confusion cat x ;; Ok (field c)) pages ;;
  stack_sum2 ts.

Definition _compute_overlap_iou (inv_class_names : dict nat string) (pages : list page)
    (classes : list nat) (cat : category) (smooth : Q) : result (list table_row) :=
  ov_intersections <- sum_confusion conf_intersections cat pages ;;
  ov_unions <- sum_confusion conf_unions cat pages ;;
  let ov_iu := zip_with (zip_with (iu smooth)) ov_intersections ov_unions in
  mapM (fun '(row_idx, row_class_idx) =>
          source <- dict_get Nat.eqb row_class_idx inv_class_names ;;
          cells <- mapM (fun '(pred_idx, secondary_line_idx) =>
                           name <- dict_get Nat.eqb secondary_line_idx inv_class_names ;;
                           row <- getitem ov_iu row_idx ;;
                           v <- getitem row pred_idx ;;
                           Ok (name, cell v))
                        (enumerate (others classes row_class_idx)) ;;
          Ok (dict_update String.eqb [("Source"%string, source)]
                          (dict_update String.eqb [] cells)))
       (enumerate classes).

(** ** ketos.py, segtest: the command *)

(** [nn.user_metadata["class_mapping"]]: category, then class name, then
    the index of the class in the tensors. *)
Definition class_mapping_t : Type := dict string (dict string nat).

(** [dict([(val, key) for (cat, subcategory) in class_mapping.items()
                      for key, val in subcategory.items()])] *)
Definition inv_class_names_of (class_mapping : class_mapping_t) : dict nat string :=
  dict_update Nat.eqb []
    (flat_map (fun cs => map (fun kv => (snd kv, fst kv)) (snd cs)) class_mapping).

(** [torch.stack([x[category][field] for x in pages]).sum()] *)
Definition sum_category (field : cat_stats -> Z) (cat : category) (pages : list page)
  : result Z :=
  ts <- mapM (fun x => s <- page_category cat x ;; Ok (field s)) pages ;;
  stack_sum_scalars ts.

(** [line_iu] and [region_iu]:
    [(intersections + smooth) / (unions + smooth)] on the sums over the
    pages of the category's statistics. *)
Definition class_independent_iu (cat : category) (pages : list page) : result tval :=
  i <- sum_category cat_intersections cat pages ;;
  u <- sum_category cat_unions cat pages ;;
  Ok (iu smooth i u).

(** What the command prints for one category: nothing when the category has
    no class, else the class-independent IoU and, when [with_table] lets
    it, the overlap table. *)
Definition category_report (with_table : nat -> bool) (inv_class_names : dict nat string)
    (pages : list page) (idx : list nat) (cat : category)
  : result (option (tval * option (list table_row))) :=
  match idx with
  | [] => Ok None
  | _ :: _ =>
      v <- class_independent_iu cat pages ;;
      if with_table (length idx)
      then t <- _compute_overlap_iou inv_class_names pages idx cat smooth ;;
           Ok (Some (v, Some t))
      else Ok (Some (v, None))
  end.

Record report : Type := {
  report_batches : Z;
  report_metrics : metrics;
  report_baselines : option (tval * option (list table_row));
  report_regions : option (tval * option (list table_row))
}.

(** The command from the class mapping on.  The table of the baselines is
    printed under [if len(lines_idx) > 1], that of the regions under
    [if len(regions_idx)]. *)
Definition segtest (class_mapping : class_mapping_t) (threshold : Q)
    (ds_loader : list batch) : result report :=
  bl <- dict_get String.eqb "baselines"%string class_mapping ;;
  rg <- dict_get String.eqb "regions"%string class_mapping ;;
  if (length ds_loader =? 0)%nat then Raise UsageError else
  let lines_idx := map snd bl in
  let regions_idx := map snd rg in
  st <- run_loop lines_idx regions_idx threshold ds_loader ;;
  m <- global_metrics (pages st) ;;
  let inv_class_names := inv_class_names_of class_mapping in
  b <- category_report (fun n => (1 <? n)%nat) inv_class_names (pages st) lines_idx Baselines ;;
  r <- category_report (fun n => negb (n =? 0)%nat) inv_class_names (pages st) regions_idx Regions ;;
  Ok {| report_batches := batches st;
        report_metrics := m;
        report_baselines := b;
        report_regions := r |}.

(** ** Auxiliary definitions used in the statements *)

(** The baselines of the lines that are not passed, in order: the list
    handed to [calculate_polygonal_environment]. *)
Definition kept_baselines (lines : list line) : list baseline :=
  map bl_of (filter (fun x => negb (is_passed x)) lines).

(** The number of lines that are not passed. *)
Definition count_kept (lines : list line) : nat :=
  length (filter (fun x => negb (is_passed x)) lines).

(** The line indices that end up in [passed], for lines numbered from [k]. *)
Fixpoint passed_from (k : nat) (lines : list line) : list nat :=
  match lines with
  | [] => []
  | x :: lines' =>
      if is_passed x then k :: passed_from (S k) lines' else passed_from (S k) lines'
  end.

(** The polygons [o] laid out along [lines], [None] at each passed line. *)
Fixpoint aligned (lines : list line) (o : list (option polygon)) : list (option polygon) :=
  match lines with
  | [] => []
  | x :: lines' =>
      if is_passed x then None :: aligned lines' o
      else match o with
           | p :: o' => p :: aligned lines' o'
           | [] => []
           end
  end.

(** A batch on which the loop body raises one of the two exceptions that
    the [except] clauses catch. *)
Definition skipped (lines_idx regions_idx : list nat) (threshold : Q) (b : batch) : bool :=
  match page_stats lines_idx regions_idx threshold b with
  | Raise FileNotFoundError => true
  | Raise KrakenInputException => true
  | _ => false
  end.


(** The batches that are not skipped. *)
Definition loaded (lines_idx regions_idx : list nat) (threshold : Q)
    (ds_loader : list batch) : list batch :=
  filter (fun b => negb (skipped lines_idx regions_idx threshold b)) ds_loader.

(** The model has [C] output classes and every target has as many. *)
Definition wf_batch (C : nat) (b : batch) : Prop :=
  forall pred, nn_out b = Ok pred -> length pred = C /\ length (target b) = C.

(** What the per-class statistics of an accumulated page of [C] classes
    satisfy. *)
Record page_ok (C : nat) (p : page) : Prop := {
  ok_intersections : length (intersections p) = C;
  ok_unions : length (unions p) = C;
  ok_corrects : length (corrects p) = C;
  ok_cls_cnt : length (cls_cnt p) = C;
  ok_all_n : 0 < all_n p;
  ok_inter_union : forall c, 0 <= nth c (intersections p) 0 <= nth c (unions p) 0;
  ok_union_all : forall c, nth c (unions p) 0 <= all_n p;
  ok_correct_all : forall c, 0 <= nth c (corrects p) 0 <= all_n p;
  ok_cnt_all : forall c, 0 <= nth c (cls_cnt p) 0 <= all_n p
}.

(** [l.sum()] on finite numbers. *)
Definition qsum (l : list Q) : Q := fold_right Qplus 0%Q l.

(** The sum over the pages of the entry of class [c] of a per-class field. *)
Definition total (f : page -> list Z) (pages : list page) (c : nat) : Z :=
  zsum (map (fun p => nth c (f p) 0) pages).


(** The frequency-weighted IoU as the specification words it: the sum
    over the classes of [positives[c] / sum(positives) * classIoU[c]]. *)
Definition freq_weighted_iu_spec (positives : list Z) (class_iu : list tval) : tval :=
  tsum (zip_with (fun p v => tmul (tdiv (inject_Z p) (inject_Z (zsum positives))) v)
                 positives class_iu).

(** A grid of two by two pixels. *)
Definition grid2 (a b c d : Q) : list (list Q) := [[a; b]; [c; d]].

(** A test set of one page of two by two pixels for a model with two
    baseline classes: class 0 is predicted exactly, class 1 has one
    ground-truth pixel and no predicted pixel. *)
Definition two_class_mapping : class_mapping_t :=
  [("aux", []);
   ("baselines", [("default", 0%nat); ("other", 1%nat)]);
   ("regions", [])]%string.

Definition two_class_page : batch :=
  {| nn_out := Ok [grid2 (9 # 10) (9 # 10) (1 # 10) (1 # 10);
                   grid2 (1 # 10) (1 # 10) (1 # 10) (1 # 10)];
     target := [grid2 1 1 0 0; grid2 0 0 1 0] |}.

(** The per-page overlap count as the specification words it: the mask of
    class [ci] against the OR of the predicted masks of all other classes
    of the category. *)
Definition overlap_against_rest_spec (op : bool -> bool -> bool) (classes_idx : list nat)
    (y pred : tensor2 bool) (ci : nat) : Z :=
  count (zip_with op (nth ci y [])
                  (any_dim0 (size1 pred)
                            (map (fun cj => nth cj pred []) (others classes_idx ci)))).

(** The count the code takes for the pair of classes [(ci, cj)]: the
    target mask of [ci] against the predicted mask of [cj]. *)
Definition pair_count (op : bool -> bool -> bool) (y pred : tensor2 bool) (ci cj : nat) : Z :=
  count (zip_with op (nth ci y []) (nth cj pred [])).

(** A page of two by two pixels for a model with three baseline classes:
    the only ground-truth pixel of class 0 is predicted as class 1. *)
Definition three_class_page : batch :=
  {| nn_out := Ok [grid2 0 0 0 0; grid2 1 0 0 0; grid2 0 0 0 0];
     target := [grid2 1 0 0 0; grid2 0 0 0 0; grid2 0 0 0 0] |}.

(** The two masks of [three_class_page] after thresholding at one half
    and flattening. *)
Definition three_class_y : tensor2 bool :=
  [[true; false; false; false]; [false; false; false; false];
   [false; false; false; false]].

Definition three_class_pred : tensor2 bool :=
  [[false; false; false; false]; [true; false; false; false];
   [false; false; false; false]].

(** The entry [x[category]["confusion"][field][i][j]] of a page. *)
Definition conf_entry (field : confusion -> tensor2 Z) (cat : category) (x : page)
    (i j : nat) : Z :=
  match page_confusion cat x with
  | Ok c => nth j (nth i (field c) []) 0
  | Raise _ => 0
  end.

(** The sum over the pages of that entry. *)
Definition conf_total (field : confusion -> tensor2 Z) (cat : category)
    (pages : list page) (i j : nat) : Z :=
  zsum (map (fun x => conf_entry field cat x i j) pages).

(** A page that carries, for the category, two confusion matrices of [k]
    rows and [k - 1] columns of counts, the intersections below the
    unions. *)
Definition has_confusion (cat : category) (k : nat) (x : page) : Prop :=
  exists c,
    page_confusion cat x = Ok c
    /\ shape (conf_intersections c) = repeat (k - 1)%nat k
    /\ shape (conf_unions c) = repeat (k - 1)%nat k
    /\ forall i j, 0 <= nth j (nth i (conf_intersections c) []) 0
                       <= nth j (nth i (conf_unions c) []) 0.

(** The class indices of a category in the loop. *)
Definition category_idx (lines_idx regions_idx : list nat) (cat : category) : list nat :=
  match cat with
  | Baselines => lines_idx
  | Regions => regions_idx
  end.


(** The smoothed quotient of the summed confusion entries of a pair. *)
Definition ov_iu_value (cat : category) (pages : list page) (i j : nat) : Q :=
  ((inject_Z (conf_total conf_intersections cat pages i j) + smooth)
   / (inject_Z (conf_total conf_unions cat pages i j) + smooth))%Q.

(** A page whose evaluation raises [FileNotFoundError]. *)
Definition missing_page : batch :=
  {| nn_out := Raise FileNotFoundError; target := [] |}.

(** The state in which the loop over [two_class_page] ends. *)
Definition two_class_state : loop_state :=
  Eval vm_compute in
    match run_loop [0; 1]%nat [] (1 # 2) [two_class_page] with
    | Ok st => st
    | Raise _ => {| pages := []; batches := 0 |}
    end.

(** The page accumulated for [two_class_page]. *)
Definition two_class_stats : page :=
  Eval vm_compute in hd {| intersections := []; unions := []; corrects := [];
                           cls_cnt := []; all_n := 0; baselines := None;
                           regions := None |} (pages two_class_state).

(** A document of four lines: no baseline, a baseline of two points, an
    empty baseline and the placeholder [[0, 0]]; and a polygonizer that
    answers every baseline with the same triangle. *)
Definition four_lines : list line :=
  [{| line_baseline := None |};
   {| line_baseline := Some [CPoint 0 10; CPoint 50 10] |};
   {| line_baseline := Some [] |};
   {| line_baseline := Some zero_zero |}].

Definition constant_polygonizer (bls : list baseline) : list (option polygon) :=
  map (fun _ => Some [(0, 0); (50, 0); (50, 20)]) bls.

(** A finite number between zero and one. *)
Definition unit_value (v : tval) : Prop :=
  exists q, v = Some q /\ (0 <= q <= 1)%Q.

(** ** Further definitions for the properties of segtest *)



(** The output of the model is a tensor: every class has the grid of the
    first class's height and width. *)
Definition rect_batch (b : batch) : Prop :=
  forall pred,
    nn_out b = Ok pred ->
    Forall (fun g => length g = size1 pred
                     /\ Forall (fun r => length r = size2 pred) g) pred.

(** The indices of all classes of the mapping, in iteration order. *)
Definition all_indices (class_mapping : class_mapping_t) : list nat :=
  flat_map (fun cs => map snd (snd cs)) class_mapping.

(** * Further code of the two files

    Besides [segtest] and the loop of [cli], the following code is
    embedded, each piece on its own:

    - [kraken/ketos.py]: [_validate_merging]; the check of [freq] and
      the choice of the validation argument in [segtrain] and [train];
      the handling of [device] in [segtrain], [train] and [segtest]; the
      loop of [test] over the batches of one model with the accuracy it
      appends to [acc_list]; the per-class table [out] of [segtest];
    - [kraken/contrib/repolygonize.py]: [_parse_page_coords],
      [_repl_alto] and [_repl_page].

    Conventions.

    - An XML document is the list of its [TextLine] nodes in document
      order, each reduced to the attributes that the code reads or
      writes; writing the document back is returning that list.  An
      exception leaves the function before anything is written.
    - [int(s)] and [s.isspace()] are parameters ([builtins]); [str] on
      an integer is its decimal notation.
    - The float [freq] is a finite number, kept exactly as a rational.
    - [net.predict_string] and [global_align] of [test] are parameters;
      an exception comes from [predict_string] only. *)

(** ** Strings, and the exceptions of the further code *)

(** The exceptions that the code below raises besides those of [exn]. *)
Inductive failure : Type :=
| Builtin (e : exn)
| ValueError
| AttributeError
| ZeroDivisionError
| BadParameter
| BadOptionUsage.

Inductive outcome (A : Type) : Type :=
| Return (a : A)
| Throw (e : failure).

Arguments Return {A} a.
Arguments Throw {A} e.

Definition obind {A B : Type} (r : outcome A) (f : A -> outcome B) : outcome B :=
  match r with
  | Return a => f a
  | Throw e => Throw e
  end.

Notation "x <-- r ;; k" := (obind r (fun x => k))
  (at level 61, r at next level, right associativity).

Fixpoint omapM {A B : Type} (f : A -> outcome B) (l : list A) : outcome (list B) :=
  match l with
  | [] => Return []
  | a :: l' => b <-- f a ;; bs <-- omapM f l' ;; Return (b :: bs)
  end.

(** [s.split(sep)] for a separator of one character. *)
Fixpoint split (sep : ascii) (s : string) : list string :=
  match s with
  | EmptyString => [EmptyString]
  | String c s' =>
      if Ascii.eqb c sep then EmptyString :: split sep s'
      else match split sep s' with
           | p :: ps => String c p :: ps
           | [] => [String c EmptyString]
           end
  end.

(** [sep.join(l)] *)
Fixpoint join (sep : string) (l : list string) : string :=
  match l with
  | [] => EmptyString
  | [x] => x
  | x :: l' => (x ++ sep ++ join sep l')%string
  end.

(** [str(z)] on an integer. *)
Definition str (z : Z) : string := NilZero.string_of_int (Z.to_int z).

(** The builtins on strings that the code calls and that are taken as
    parameters: [int(s)], with [None] for its [ValueError], and
    [s.isspace()]. *)
Record builtins : Type := {
  py_int : string -> option Z;
  py_isspace : string -> bool
}.

(** ** ketos.py: _validate_merging *)

(** [k, v = m.split(':')] inside the [try]: anything but two parts ends
    in [BadParameter]. *)
Definition merge_step (merge_dict : dict string string) (m : string)
  : outcome (dict string string) :=
  match split ":" m with
  | [k; v] => Return (dict_set String.eqb v k merge_dict)
  | _ => Throw BadParameter
  end.

Fixpoint ofoldM {A S : Type} (f : S -> A -> outcome S) (l : list A) (s : S) : outcome S :=
  match l with
  | [] => Return s
  | a :: l' => s' <-- f s a ;; ofoldM f l' s'
  end.

Definition _validate_merging (value : list string) : outcome (option (dict string string)) :=
  match value with
  | [] => Return None
  | _ :: _ => merge_dict <-- ofoldM merge_step value [] ;; Return (Some merge_dict)
  end.

(** ** ketos.py, segtrain and train: the validation frequency *)

(** [freq % 1.0 != 0] *)
Definition has_fraction (freq : Q) : bool :=
  negb (Qeq_bool (freq - inject_Z (Qfloor freq))%Q 0).

(** [if not (0 <= freq <= 1) and freq % 1.0 != 0: raise BadOptionUsage] *)
Definition check_freq (freq : Q) : outcome unit :=
  if negb (Qle_bool 0 freq && Qle_bool freq 1) && has_fraction freq
  then Throw BadOptionUsage
  else Return tt.

(** The keyword argument handed to the trainer. *)
Inductive val_check : Type :=
| check_val_every_n_epoch (n : Z)
| val_check_interval (freq : Q).

(** [int(x)] on a float: truncation towards zero. *)
Definition int_of_float (x : Q) : Z :=
  if Qle_bool 0 x then Qfloor x else Qceiling x.

(** [if hyper_params['freq'] > 1: ... else: ...] *)
Definition val_check_of (freq : Q) : val_check :=
  if negb (Qle_bool freq 1) then check_val_every_n_epoch (int_of_float freq)
  else val_check_interval freq.

(** The two steps of [segtrain] and [train] on [freq]. *)
Definition freq_to_val_check (freq : Q) : outcome val_check :=
  _ <-- check_freq freq ;; Return (val_check_of freq).

(** ** repolygonize.py: _parse_page_coords *)

(** [l[::2]] and [l[1::2]] *)
Fixpoint evens {A : Type} (l : list A) : list A :=
  match l with
  | [] => []
  | x :: l' => x :: match l' with
                    | [] => []
                    | _ :: l'' => evens l''
                    end
  end.

Definition odds {A : Type} (l : list A) : list A :=
  match l with
  | [] => []
  | _ :: l' => evens l'
  end.

Definition point_eqb (p q : Z * Z) : bool :=
  (fst p =? fst q) && (snd p =? snd q).

(** [[k for k, g in groupby(pts)]]: one point per run of equal points. *)
Fixpoint groupby_keys (pts : list (Z * Z)) : list (Z * Z) :=
  match pts with
  | [] => []
  | p :: pts' =>
      match pts' with
      | [] => [p]
      | q :: _ => if point_eqb p q then groupby_keys pts' else p :: groupby_keys pts'
      end
  end.

Definition int_or_raise (ops : builtins) (c : string) : outcome Z :=
  match py_int ops c with
  | Some z => Return z
  | None => Throw ValueError
  end.

Definition _parse_page_coords (ops : builtins) (coords : string) : outcome (list (Z * Z)) :=
  let points := split " " coords in
  points <-- omapM (int_or_raise ops) (flat_map (split ",") points) ;;
  let pts := combine (evens points) (odds points) in
  Return (groupby_keys pts).

(** ** repolygonize.py: _repl_alto and _repl_page *)

(** [' '.join([str(coord) for pt in polygon for coord in pt])] *)
Definition alto_points (pol : polygon) : string :=
  join " " (flat_map (fun pt => [str (fst pt); str (snd pt)]) pol).

(** [' '.join([','.join([str(x) for x in pt]) for pt in polygon])] *)
Definition page_points (pol : polygon) : string :=
  join " " (map (fun pt => join "," [str (fst pt); str (snd pt)]) pol).

(** A [TextLine] of an ALTO document as [_repl_alto] sees it: the
    attribute [BASELINE], and the attribute [POINTS] of the node
    [Shape/Polygon], [None] when the line has no such node. *)
Record alto_line : Type := {
  alto_baseline : option string;
  alto_polygon : option (option string)
}.

(** The body of the loop of [_repl_alto] for the line of index [idx]. *)
Definition repl_alto_line (polygons : list (option polygon)) (il : nat * alto_line)
  : outcome alto_line :=
  let '(idx, line) := il in
  match alto_baseline line with
  | None => Return line
  | Some b =>
      match nth_error polygons idx with
      | None => Throw (Builtin IndexError)
      | Some (Some pol) =>
          Return {| alto_baseline := Some b; alto_polygon := Some (Some (alto_points pol)) |}
      | Some None =>
          Return {| alto_baseline := Some b; alto_polygon := Some (Some EmptyString) |}
      end
  end.

(** [_repl_alto] from the parsed document to the document written back. *)
Definition _repl_alto (polygons : list (option polygon)) (doc : list alto_line)
  : outcome (list alto_line) :=
  omapM (repl_alto_line polygons) (enumerate doc).

(** A [TextLine] of a PageXML document as [_repl_page] sees it: the
    attribute [points] of the node [Baseline] and of the node [Coords],
    the outer [None] for a missing node, the inner for a missing
    attribute. *)
Record page_line : Type := {
  page_baseline : option (option string);
  page_coords : option (option string)
}.

(** The test of [_repl_page] on the baseline of a line: does the loop go
    on to the polygon?  A [Baseline] node without the attribute [points]
    raises, since [None] has no method [isspace]. *)
Definition has_baseline (ops : builtins) (line : page_line) : outcome bool :=
  match page_baseline line with
  | None => Return false
  | Some None => Throw AttributeError
  | Some (Some pts) =>
      if negb (py_isspace ops pts) && negb (String.length pts =? 0)%nat
      then match _parse_page_coords ops pts with
           | Return _ => Return true
           | Throw _ => Return false
           end
      else Return false
  end.

(** One iteration of the loop of [_repl_page], on the counter [idx] and
    the lines written so far. *)
Definition repl_page_step (ops : builtins) (polygons : list (option polygon))
    (st : nat * list page_line) (line : page_line) : outcome (nat * list page_line) :=
  let '(idx, done) := st in
  ok <-- has_baseline ops line ;;
  if ok then
    match page_coords line with
    | None => Return (S idx, done ++ [line])
    | Some _ =>
        match nth_error polygons idx with
        | None => Throw (Builtin IndexError)
        | Some (Some pol) =>
            Return (S idx, done ++ [{| page_baseline := page_baseline line;
                                       page_coords := Some (Some (page_points pol)) |}])
        | Some None =>
            Return (S idx, done ++ [{| page_baseline := page_baseline line;
                                       page_coords := Some (Some EmptyString) |}])
        end
    end
  else Return (idx, done ++ [line]).

Definition _repl_page (ops : builtins) (polygons : list (option polygon))
    (doc : list page_line) : outcome (list page_line) :=
  st <-- ofoldM (repl_page_step ops polygons) doc (0%nat, []) ;;
  Return (snd st).

(** ** ketos.py, test: the loop over the lines of one model *)

(** A batch of the data loader of [test]: the outcome of
    [net.predict_string(im, lens)] and [batch['target']]. *)
Record test_batch : Type := {
  predict_string : result (list string);
  test_text : list string
}.

(** The variables that the loop updates. *)
Record test_state : Type := {
  chars : Z;
  error : Z;
  algn_gt : list string;
  algn_pred : list string;
  test_batches : Z
}.

(** The body of [for x, y in zip(pred, text)].  [global_align] lives in
    [kraken.lib.dataset]; it is a parameter. *)
Definition align_step (global_align : string -> string -> Z * list string * list string)
    (st : test_state) (xy : string * string) : test_state :=
  let '(x, y) := xy in
  let chars := chars st + Z.of_nat (String.length y) in
  let '(c, algn1, algn2) := global_align y x in
  {| chars := chars;
     error := error st + c;
     algn_gt := algn_gt st ++ algn1;
     algn_pred := algn_pred st ++ algn2;
     test_batches := test_batches st |}.

(** One iteration of [for batch in ds_loader]. *)
Definition test_step (global_align : string -> string -> Z * list string * list string)
    (st : test_state) (b : test_batch) : result test_state :=
  match predict_string b with
  | Ok pred => Ok (fold_left (align_step global_align) (combine pred (test_text b)) st)
  | Raise FileNotFoundError =>
      Ok {| chars := chars st; error := error st; algn_gt := algn_gt st;
            algn_pred := algn_pred st; test_batches := test_batches st - 1 |}
  | Raise KrakenInputException =>
      Ok {| chars := chars st; error := error st; algn_gt := algn_gt st;
            algn_pred := algn_pred st; test_batches := test_batches st - 1 |}
  | Raise e => Raise e
  end.

Definition test_loop (global_align : string -> string -> Z * list string * list string)
    (ds_loader : list test_batch) : result test_state :=
  foldM (test_step global_align) ds_loader
        {| chars := 0; error := 0; algn_gt := []; algn_pred := [];
           test_batches := Z.of_nat (length ds_loader) |}.

(** [(chars - error) / chars], the value appended to [acc_list]. *)
Definition test_accuracy (global_align : string -> string -> Z * list string * list string)
    (ds_loader : list test_batch) : outcome Q :=
  match test_loop global_align ds_loader with
  | Raise e => Throw (Builtin e)
  | Ok st =>
      if chars st =? 0 then Throw ZeroDivisionError
      else Return (inject_Z (chars st - error st) / inject_Z (chars st))%Q
  end.

(** ** ketos.py, segtest: the table of the classes *)







(** ** ketos.py, segtrain, train and segtest: the device *)

(** The value of [device] after the commands have looked at it: [None],
    a list of device numbers, or the string as it was given. *)
Inductive device_t : Type :=
| device_none
| device_list (l : list Z)
| device_name (s : string).

(** [if device == 'cpu': device = None
     elif device.startswith('cuda'): device = [int(device.split(':')[-1])]] *)
Definition device_of (ops : builtins) (device : string) : outcome device_t :=
  if String.eqb device "cpu" then Return device_none
  else if String.prefix "cuda" device then
    n <-- int_or_raise ops (last (split ":" device) EmptyString) ;;
    Return (device_list [n])
  else Return (device_name device).
(** The number of occurrences of a character in a string. *)
Fixpoint occurrences (c : ascii) (s : string) : nat :=
  match s with
  | EmptyString => 0%nat
  | String a s' => if Ascii.eqb a c then S (occurrences c s') else occurrences c s'
  end.

(** The lines before line [k] whose baseline passes the test of
    [_repl_page]: the value of its counter [idx] at line [k]. *)
Definition baseline_ok (ops : builtins) (line : page_line) : bool :=
  match has_baseline ops line with
  | Return true => true
  | _ => false
  end.

Definition rank (ops : builtins) (doc : list page_line) (k : nat) : nat :=
  length (filter (baseline_ok ops) (firstn k doc)).

(** What [_repl_alto] and [_repl_page] write for an entry of [polygons]. *)
Definition alto_entry (e : option polygon) : string :=
  match e with
  | Some pol => alto_points pol
  | None => EmptyString
  end.

Definition page_entry (e : option polygon) : string :=
  match e with
  | Some pol => page_points pol
  | None => EmptyString
  end.

(** Builtins for the statements at concrete inputs: decimal integers with
    an optional minus sign, and blanks, tabs and line ends as white
    space. *)
Definition decimal_int (s : string) : option Z :=
  option_map Z.of_int (NilZero.int_of_string s).

Fixpoint all_blank (s : string) : bool :=
  match s with
  | EmptyString => true
  | String c s' =>
      (Ascii.eqb c " " || Ascii.eqb c "009" || Ascii.eqb c "010" || Ascii.eqb c "013")
      && all_blank s'
  end.

Definition plain_builtins : builtins :=
  {| py_int := decimal_int;
     py_isspace := fun s => negb (String.length s =? 0)%nat && all_blank s |}.

(** No two neighbours of the list are equal. *)
Fixpoint distinct_neighbours (l : list (Z * Z)) : Prop :=
  match l with
  | [] => True
  | a :: t => match t with
              | [] => True
              | b :: _ => a <> b /\ distinct_neighbours t
              end
  end.

(** The line that [_repl_page] writes for a line with a good baseline
    when its counter is [idx]. *)
Definition rewrite_page_line (polygons : list (option polygon)) (idx : nat)
    (line : page_line) : page_line :=
  match page_coords line with
  | None => line
  | Some _ => {| page_baseline := page_baseline line;
                 page_coords := Some (Some (page_entry (nth idx polygons None))) |}
  end.

(** The lines that [_repl_page] writes for the lines [l] when its counter
    starts at [idx]. *)
Fixpoint page_out (ops : builtins) (polygons : list (option polygon)) (idx : nat)
    (l : list page_line) : list page_line :=
  match l with
  | [] => []
  | line :: l' =>
      if baseline_ok ops line
      then rewrite_page_line polygons idx line :: page_out ops polygons (S idx) l'
      else line :: page_out ops polygons idx l'
  end.

(** The line that [_repl_alto] writes for the line of index [k]. *)
Definition rewrite_alto_line (polygons : list (option polygon)) (k : nat)
    (line : alto_line) : alto_line :=
  match alto_baseline line with
  | None => line
  | Some b => {| alto_baseline := Some b;
                 alto_polygon := Some (Some (alto_entry (nth k polygons None))) |}
  end.

(** What a batch of [test] adds to [chars] and to [error]. *)
Definition batch_pairs (b : test_batch) : list (string * string) :=
  match predict_string b with
  | Ok pred => combine pred (test_text b)
  | Raise _ => []
  end.

Definition batch_chars (b : test_batch) : Z :=
  zsum (map (fun xy => Z.of_nat (String.length (snd xy))) (batch_pairs b)).

Definition batch_errors (global_align : string -> string -> Z * list string * list string)
    (b : test_batch) : Z :=
  zsum (map (fun xy => fst (fst (global_align (snd xy) (fst xy)))) (batch_pairs b)).

(** A batch of [test] on which [predict_string] raises an exception that
    the loop does not catch. *)
Definition test_aborts (b : test_batch) : bool :=
  match predict_string b with
  | Ok _ => false
  | Raise FileNotFoundError => false
  | Raise KrakenInputException => false
  | Raise _ => true
  end.



(** ** Concrete inputs for the further properties *)

(** A mapping with one baseline class and one region class. *)
Definition one_region_mapping : class_mapping_t :=
  [("aux", []);
   ("baselines", [("default", 0%nat)]);
   ("regions", [("text", 1%nat)])]%string.



(** An ALTO document and a PageXML document of four lines each. *)
Definition alto_doc_example : list alto_line :=
  [{| alto_baseline := None; alto_polygon := None |};
   {| alto_baseline := Some "0 10 50 10"; alto_polygon := Some (Some "1 1 2 2") |};
   {| alto_baseline := Some ""; alto_polygon := None |};
   {| alto_baseline := None; alto_polygon := Some None |}]%string.

Definition page_doc_example : list page_line :=
  [{| page_baseline := None; page_coords := Some (Some "1,1 2,2") |};
   {| page_baseline := Some (Some "0,10 50,10"); page_coords := Some (Some "3,3") |};
   {| page_baseline := Some (Some " "); page_coords := None |};
   {| page_baseline := Some (Some "0,10 x,10"); page_coords := Some None |}]%string.

(** An alignment for the statements at concrete inputs: no cost for equal
    strings, one for different strings. *)
Definition unit_align (y x : string) : Z * list string * list string :=
  (if String.eqb y x then 0 else 1, [y], [x]).

(** Two batches of [test]: two predicted lines, and a batch whose
    evaluation raises [KrakenInputException]. *)
Definition test_batches_example : list test_batch :=
  [{| predict_string := Ok ["abc"; "de"]; test_text := ["abc"; "dx"] |};
   {| predict_string := Raise KrakenInputException; test_text := ["fgh"] |}]%string.
(** * Theorems *)

(** ** The result monad *)

Lemma bind_Ok {A B : Type} (r : result A) (f : A -> result B) (b : B) :
  bind r f = Ok b -> exists a, r = Ok a /\ f a = Ok b.
Proof.
  destruct r as [a | e]; simpl; intros H; [exists a; auto | discriminate].
Qed.

Ltac inv_bind H :=
  let a := fresh "a" in
  let Ha := fresh "Ha" in
  apply bind_Ok in H; destruct H as (a & Ha & H).

Lemma mapM_Ok_length {A B : Type} (f : A -> result B) (l : list A) (bs : list B) :
  mapM f l = Ok bs -> length bs = length l.
Proof.
  revert bs; induction l as [| a l IH]; simpl; intros bs H.
  - injection H as <-; reflexivity.
  - inv_bind H. inv_bind H. injection H as <-. simpl. f_equal. auto.
Qed.


Lemma mapM_total {A B : Type} (f : A -> result B) (l : list A) :
  (forall a, In a l -> exists b, f a = Ok b) ->
  exists bs, mapM f l = Ok bs.
Proof.
  induction l as [| a l IH]; simpl; intros H.
  - eauto.
  - destruct (H a (or_introl eq_refl)) as (b & Hb).
    destruct IH as (bs & Hbs); [intros; apply H; auto |].
    rewrite Hb, Hbs. simpl. eauto.
Qed.

Lemma mapM_ext {A B : Type} (f g : A -> result B) (l : list A) :
  (forall a, In a l -> f a = g a) -> mapM f l = mapM g l.
Proof.
  induction l as [| a l IH]; simpl; intros H; [reflexivity |].
  rewrite (H a (or_introl eq_refl)), IH; auto.
Qed.

Lemma mapM_pure {A B : Type} (f : A -> B) (l : list A) :
  mapM (fun a => Ok (f a)) l = Ok (map f l).
Proof.
  induction l as [| a l IH]; simpl; [reflexivity | rewrite IH; reflexivity].
Qed.

(** ** repolygonize: the polygons stay aligned with the lines *)



Lemma classify_fold (lines : list line) :
  forall k bls passed,
    fold_left classify (combine (seq k (length lines)) lines) (bls, passed)
    = (bls ++ kept_baselines lines, passed ++ passed_from k lines).
Proof.
  unfold kept_baselines.
  induction lines as [| x lines IH]; intros k bls passed; simpl.
  - now rewrite !app_nil_r.
  - unfold is_passed.
    destruct (baseline_eqb (bl_of x) zero_zero); simpl.
    + rewrite IH. now rewrite <- app_assoc.
    + destruct (0 <? length (bl_of x))%nat; simpl; rewrite IH;
        now rewrite <- app_assoc.
Qed.

Lemma list_insert_at_end {A : Type} (prefix o : list A) (x : A) :
  list_insert (length prefix) x (prefix ++ o) = prefix ++ x :: o.
Proof.
  unfold list_insert.
  rewrite firstn_app, skipn_app, firstn_all, skipn_all, Nat.sub_diag.
  simpl. now rewrite app_nil_r.
Qed.

Lemma reinsert_aligned (lines : list line) :
  forall (prefix o : list (option polygon)),
    length o = count_kept lines ->
    fold_left (fun o idx => list_insert idx None o)
              (passed_from (length prefix) lines) (prefix ++ o)
    = prefix ++ aligned lines o.
Proof.
  unfold count_kept.
  induction lines as [| x lines IH]; intros prefix o Hlen; simpl in *.
  - destruct o; [reflexivity | discriminate].
  - destruct (is_passed x); simpl in *.
    + rewrite list_insert_at_end.
      replace (prefix ++ None :: o) with ((prefix ++ [None]) ++ o)
        by now rewrite <- app_assoc.
      replace (S (length prefix)) with (length (prefix ++ [None]))
        by (rewrite length_app; simpl; lia).
      rewrite IH by assumption. now rewrite <- app_assoc.
    + destruct o as [| p o]; [discriminate |].
      replace (prefix ++ p :: o) with ((prefix ++ [p]) ++ o)
        by now rewrite <- app_assoc.
      replace (S (length prefix)) with (length (prefix ++ [p]))
        by (rewrite length_app; simpl; lia).
      rewrite IH by (simpl in Hlen; lia). now rewrite <- app_assoc.
Qed.

Lemma aligned_length (lines : list line) :
  forall o, length o = count_kept lines -> length (aligned lines o) = length lines.
Proof.
  unfold count_kept.
  induction lines as [| x lines IH]; intros o Hlen; simpl in *; [reflexivity |].
  destruct (is_passed x); simpl in *.
  - f_equal; auto.
  - destruct o as [| p o]; [discriminate |]. simpl. f_equal. apply IH.
    simpl in Hlen. lia.
Qed.

Lemma aligned_nth (lines : list line) :
  forall o i x,
    length o = count_kept lines ->
    nth_error lines i = Some x ->
    nth_error (aligned lines o) i
    = if is_passed x then Some None
      else nth_error o (count_kept (firstn i lines)).
Proof.
  unfold count_kept.
  induction lines as [| y lines IH]; intros o i x Hlen Hi.
  - destruct i; discriminate.
  - simpl in Hlen. destruct i as [| i]; simpl in Hi.
    + injection Hi as ->. simpl.
      destruct (is_passed x) eqn:Hx; simpl in *; [reflexivity |].
      destruct o; [discriminate | reflexivity].
    + simpl. destruct (is_passed y) eqn:Hy; simpl in *.
      * now apply IH.
      * destruct o as [| p o]; [discriminate |]. simpl.
        apply IH; [simpl in Hlen; lia | assumption].
Qed.



(** ** Aggregation does not depend on the order of the pages *)

Lemma zsum_app (l1 l2 : list Z) : zsum (l1 ++ l2) = zsum l1 + zsum l2.
Proof.
  induction l1 as [| a l1 IH]; simpl; [reflexivity | rewrite IH; lia].
Qed.

Lemma zsum_perm (l l' : list Z) : Permutation l l' -> zsum l = zsum l'.
Proof.
  induction 1; simpl; lia.
Qed.

Lemma forallb_perm {A : Type} (f : A -> bool) (l l' : list A) :
  Permutation l l' -> forallb f l = forallb f l'.
Proof.
  induction 1; simpl; try congruence.
  destruct (f x), (f y); reflexivity.
Qed.

(** The test of [torch.stack], every tensor against the first, gives the
    same answer against any tensor of the list. *)
Lemma same_key_any {A K : Type} (key : A -> K) (eqb : K -> K -> bool)
    (eqb_eq : forall a b, eqb a b = true <-> a = b) (ts : list A) (t0 t : A) :
  In t0 ts -> In t ts ->
  forallb (fun x => eqb (key x) (key t0)) ts
  = forallb (fun x => eqb (key x) (key t)) ts.
Proof.
  intros H0 Ht.
  destruct (forallb (fun x => eqb (key x) (key t0)) ts) eqn:E0.
  - rewrite forallb_forall in E0.
    pose proof (E0 t Ht) as Et. apply eqb_eq in Et. rewrite Et. symmetry.
    apply forallb_forall. intros x Hx. apply eqb_eq. reflexivity || idtac.
    specialize (E0 x Hx). apply eqb_eq in E0. congruence.
  - symmetry. apply not_true_is_false. intros E.
    rewrite forallb_forall in E.
    pose proof (E t0 H0) as Et. apply eqb_eq in Et.
    assert (forallb (fun x => eqb (key x) (key t0)) ts = true); [| congruence].
    apply forallb_forall. intros x Hx. specialize (E x Hx).
    apply eqb_eq in E. apply eqb_eq. congruence.
Qed.

Lemma same_key_perm {A K : Type} (key : A -> K) (eqb : K -> K -> bool)
    (eqb_eq : forall a b, eqb a b = true <-> a = b) (t0 t0' : A) (ts ts' : list A) :
  Permutation (t0 :: ts) (t0' :: ts') ->
  forallb (fun x => eqb (key x) (key t0)) (t0 :: ts)
  = forallb (fun x => eqb (key x) (key t0')) (t0' :: ts').
Proof.
  intros HP.
  rewrite <- (forallb_perm _ _ _ HP).
  apply same_key_any; [assumption | left; reflexivity |].
  apply Permutation_sym in HP.
  apply (Permutation_in _ HP). left; reflexivity.
Qed.

Lemma shape_eqb_eq (s1 s2 : list nat) : shape_eqb s1 s2 = true <-> s1 = s2.
Proof.
  unfold shape_eqb. destruct (list_eq_dec Nat.eq_dec s1 s2); split; congruence.
Qed.

Lemma stack_sum_perm (ts ts' : list (list Z)) :
  Permutation ts ts' -> stack_sum ts = stack_sum ts'.
Proof.
  intros HP.
  destruct ts as [| t0 ts], ts' as [| t0' ts'];
    try reflexivity;
    try (apply Permutation_nil in HP; discriminate);
    try (apply Permutation_sym, Permutation_nil in HP; discriminate).
  unfold stack_sum.
  rewrite (same_key_perm (@length Z) Nat.eqb Nat.eqb_eq _ _ _ _ HP).
  destruct (forallb _ (t0' :: ts')) eqn:E; [| reflexivity].
  simpl in E. apply andb_true_iff in E. destruct E as [_ E].
  rewrite forallb_forall in E.
  assert (Hlen : length t0 = length t0').
  { apply Nat.eqb_eq.
    destruct (Permutation_in t0 HP (or_introl eq_refl)) as [<- | Hin];
      [apply Nat.eqb_refl | now apply E]. }
  rewrite Hlen. f_equal. apply map_ext. intros c.
  apply zsum_perm. now apply Permutation_map.
Qed.

Lemma stack_sum_all_perm (ts ts' : list (list Z)) :
  Permutation ts ts' -> stack_sum_all ts = stack_sum_all ts'.
Proof.
  intros HP.
  destruct ts as [| t0 ts], ts' as [| t0' ts'];
    try reflexivity;
    try (apply Permutation_nil in HP; discriminate);
    try (apply Permutation_sym, Permutation_nil in HP; discriminate).
  unfold stack_sum_all.
  rewrite (same_key_perm (@length Z) Nat.eqb Nat.eqb_eq _ _ _ _ HP).
  destruct (forallb _ (t0' :: ts')); [| reflexivity].
  f_equal. apply zsum_perm. now apply Permutation_map.
Qed.

Lemma stack_sum_scalars_perm (ts ts' : list Z) :
  Permutation ts ts' -> stack_sum_scalars ts = stack_sum_scalars ts'.
Proof.
  intros HP.
  destruct ts as [| t0 ts], ts' as [| t0' ts'];
    try reflexivity;
    try (apply Permutation_nil in HP; discriminate);
    try (apply Permutation_sym, Permutation_nil in HP; discriminate).
  unfold stack_sum_scalars. f_equal. now apply zsum_perm.
Qed.

Lemma stack_sum2_perm (ts ts' : list (tensor2 Z)) :
  Permutation ts ts' -> stack_sum2 ts = stack_sum2 ts'.
Proof.
  intros HP.
  destruct ts as [| t0 ts], ts' as [| t0' ts'];
    try reflexivity;
    try (apply Permutation_nil in HP; discriminate);
    try (apply Permutation_sym, Permutation_nil in HP; discriminate).
  unfold stack_sum2.
  rewrite (same_key_perm shape shape_eqb shape_eqb_eq _ _ _ _ HP).
  destruct (forallb _ (t0' :: ts')) eqn:E; [| reflexivity].
  simpl in E. apply andb_true_iff in E. destruct E as [_ E].
  rewrite forallb_forall in E.
  assert (Hshape : shape t0 = shape t0').
  { apply shape_eqb_eq.
    destruct (Permutation_in t0 HP (or_introl eq_refl)) as [<- | Hin];
      [now apply shape_eqb_eq | now apply E]. }
  assert (Hlen : length t0 = length t0').
  { unfold shape in Hshape. apply (f_equal (@length nat)) in Hshape.
    now rewrite !length_map in Hshape. }
  rewrite Hlen. f_equal. apply map_ext. intros i.
  assert (Hrow : length (nth i t0 []) = length (nth i t0' [])).
  { unfold shape in Hshape.
    pose proof (map_nth (@length Z) t0 [] i) as H1.
    pose proof (map_nth (@length Z) t0' [] i) as H2.
    simpl in H1, H2. rewrite <- H1, <- H2, Hshape. reflexivity. }
  rewrite Hrow. apply map_ext. intros j.
  apply zsum_perm. now apply Permutation_map.
Qed.

(** A list comprehension over the pages whose element can only raise
    [KeyError] gives, on a permuted list, the same exception or a
    permuted list. *)
Lemma mapM_perm {A B : Type} (f : A -> result B) (e0 : exn) (l l' : list A) :
  (forall a e, f a = Raise e -> e = e0) ->
  Permutation l l' ->
  (mapM f l = Raise e0 /\ mapM f l' = Raise e0)
  \/ (exists bs bs', mapM f l = Ok bs /\ mapM f l' = Ok bs' /\ Permutation bs bs').
Proof.
  intros Hf. induction 1 as [| x l l' HP IH | x y l | l l' l'' HP1 IH1 HP2 IH2].
  - right. exists [], []. auto.
  - simpl. destruct (f x) as [b | e] eqn:Ex; simpl.
    + destruct IH as [[-> ->] | (bs & bs' & -> & -> & HPb)]; simpl; [auto |].
      right. exists (b :: bs), (b :: bs'). auto.
    + rewrite (Hf _ _ Ex). auto.
  - simpl. destruct (f x) as [bx | ex] eqn:Ex, (f y) as [b_y | ey] eqn:Ey; simpl;
      try rewrite (Hf _ _ Ex); try rewrite (Hf _ _ Ey); auto.
    + destruct (mapM f l) as [bs | e] eqn:El; simpl.
      * right. exists (b_y :: bx :: bs), (bx :: b_y :: bs).
        repeat split. apply perm_swap.
      * left. 
        assert (e = e0); [| subst; auto].
        clear - Hf El. revert e El.
        induction l as [| a l IHl]; simpl; intros e El; [discriminate |].
        destruct (f a) eqn:Ea; simpl in El.
        -- destruct (mapM f l); simpl in El; [discriminate |].
           injection El as <-. now apply IHl.
        -- injection El as <-. eauto.
  - destruct IH1 as [[-> H1] | (bs & bs' & -> & H1 & HPb)];
      destruct IH2 as [[H2 ->] | (cs & cs' & H2 & -> & HPc)];
      try (rewrite H1 in H2; discriminate); auto.
    rewrite H1 in H2. injection H2 as <-.
    right. exists bs, cs'. repeat split. now transitivity bs'.
Qed.

Lemma page_category_exn (cat : category) (x : page) (e : exn) (f : cat_stats -> Z) :
  (s <- page_category cat x ;; Ok (f s)) = Raise e -> e = KeyError.
Proof.
  unfold page_category.
  destruct (match cat with Baselines => baselines x | Regions => regions x end);
    simpl; intros H; [discriminate | now injection H].
Qed.

Lemma page_confusion_exn (cat : category) (x : page) (e : exn)
    (f : confusion -> tensor2 Z) :
  (c <- page_confusion cat x ;; Ok (f c)) = Raise e -> e = KeyError.
Proof.
  unfold page_confusion, page_category.
  destruct (match cat with Baselines => baselines x | Regions => regions x end) as [s |];
    simpl; [| intros H; now injection H].
  destruct (cat_confusion s); simpl; intros H; [discriminate | now injection H].
Qed.

Lemma sum_category_perm (f : cat_stats -> Z) (cat : category) (l l' : list page) :
  Permutation l l' -> sum_category f cat l = sum_category f cat l'.
Proof.
  intros HP. unfold sum_category.
  destruct (mapM_perm (fun x => s <- page_category cat x ;; Ok (f s)) KeyError l l')
    as [[-> ->] | (bs & bs' & -> & -> & HPb)]; auto.
  - intros a e. apply page_category_exn.
  - simpl. now apply stack_sum_scalars_perm.
Qed.

Lemma sum_confusion_perm (f : confusion -> tensor2 Z) (cat : category) (l l' : list page) :
  Permutation l l' -> sum_confusion f cat l = sum_confusion f cat l'.
Proof.
  intros HP. unfold sum_confusion.
  destruct (mapM_perm (fun x => c <- page_confusion cat x ;; Ok (f c)) KeyError l l')
    as [[-> ->] | (bs & bs' & -> & -> & HPb)]; auto.
  - intros a e. apply page_confusion_exn.
  - simpl. now apply stack_sum2_perm.
Qed.

(** C9.  Every sum over the pages that the command takes (the per-class
    counts, the pixel total, the category counts and the confusion
    matrices) is the same, field by field, whether the pages of [A] come
    before those of [B] or after them; this includes the case where
    [torch.stack] or a missing key raises. *)
Theorem C9_aggregation_order_independent (A B : list page) :
  stack_sum (map intersections (A ++ B)) = stack_sum (map intersections (B ++ A))
  /\ stack_sum (map unions (A ++ B)) = stack_sum (map unions (B ++ A))
  /\ stack_sum (map corrects (A ++ B)) = stack_sum (map corrects (B ++ A))
  /\ stack_sum_all (map cls_cnt (A ++ B)) = stack_sum_all (map cls_cnt (B ++ A))
  /\ stack_sum_scalars (map all_n (A ++ B)) = stack_sum_scalars (map all_n (B ++ A))
  /\ (forall cat,
        sum_category cat_intersections cat (A ++ B)
        = sum_category cat_intersections cat (B ++ A)
        /\ sum_category cat_unions cat (A ++ B)
           = sum_category cat_unions cat (B ++ A)
        /\ sum_confusion conf_intersections cat (A ++ B)
           = sum_confusion conf_intersections cat (B ++ A)
        /\ sum_confusion conf_unions cat (A ++ B)
           = sum_confusion conf_unions cat (B ++ A))
  /\ global_metrics (A ++ B) = global_metrics (B ++ A).
Proof.
  pose proof (Permutation_app_comm A B) as HP.
  assert (Hi := stack_sum_perm _ _ (Permutation_map intersections HP)).
  assert (Hu := stack_sum_perm _ _ (Permutation_map unions HP)).
  assert (Hc := stack_sum_perm _ _ (Permutation_map corrects HP)).
  assert (Hk := stack_sum_all_perm _ _ (Permutation_map cls_cnt HP)).
  assert (Hn := stack_sum_scalars_perm _ _ (Permutation_map all_n HP)).
  repeat split; auto using sum_category_perm, sum_confusion_perm.
  unfold global_metrics. now rewrite Hi, Hu, Hc, Hk, Hn.
Qed.

(** ** Skipped pages *)

Lemma loop_step_skipped li ri t st b :
  skipped li ri t b = true ->
  loop_step li ri t st b = Ok {| pages := pages st; batches := batches st - 1 |}.
Proof.
  unfold skipped, loop_step.
  destruct (page_stats li ri t b) as [p | []]; intros H; try discriminate; reflexivity.
Qed.

Lemma loop_step_loaded li ri t st b :
  skipped li ri t b = false ->
  loop_step li ri t st b
  = (p <- page_stats li ri t b ;;
     Ok {| pages := pages st ++ [p]; batches := batches st |}).
Proof.
  unfold skipped, loop_step.
  destruct (page_stats li ri t b) as [p | []]; intros H; try discriminate; reflexivity.
Qed.

Lemma foldM_skip li ri t (bs : list batch) :
  forall ps n,
    foldM (loop_step li ri t) bs {| pages := ps; batches := n |}
    = foldM (loop_step li ri t) (loaded li ri t bs)
        {| pages := ps;
           batches := n - Z.of_nat (length bs) + Z.of_nat (length (loaded li ri t bs)) |}.
Proof.
  unfold loaded.
  induction bs as [| b bs IH]; intros ps n.
  - simpl. replace (n - 0 + 0) with n by lia. reflexivity.
  - cbn [filter foldM]. destruct (skipped li ri t b) eqn:Hb; cbn [negb].
    + rewrite (loop_step_skipped _ _ _ _ _ Hb). cbn [bind pages batches].
      rewrite IH. cbn [length].
      match goal with
      | |- foldM _ _ {| pages := _; batches := ?x |}
           = foldM _ _ {| pages := _; batches := ?y |} =>
          replace y with x by lia
      end.
      reflexivity.
    + cbn [foldM]. rewrite !(loop_step_loaded _ _ _ _ _ Hb).
      destruct (page_stats li ri t b) as [p | e]; cbn [bind pages batches];
        [| reflexivity].
      rewrite IH. cbn [length].
      match goal with
      | |- foldM _ _ {| pages := _; batches := ?x |}
           = foldM _ _ {| pages := _; batches := ?y |} =>
          replace y with x by lia
      end.
      reflexivity.
Qed.

Lemma foldM_loaded li ri t (bs : list batch) :
  forall st st',
    Forall (fun b => skipped li ri t b = false) bs ->
    foldM (loop_step li ri t) bs st = Ok st' ->
    exists ps, mapM (page_stats li ri t) bs = Ok ps
               /\ pages st' = pages st ++ ps /\ batches st' = batches st.
Proof.
  induction bs as [| b bs IH]; intros st st' Hall H.
  - simpl in H. injection H as <-. exists []. now rewrite app_nil_r.
  - inversion Hall as [| ? ? Hb Hbs]; subst.
    cbn [foldM] in H. rewrite (loop_step_loaded _ _ _ _ _ Hb) in H.
    destruct (page_stats li ri t b) as [p | e] eqn:Hp; cbn [bind] in H;
      [| discriminate].
    destruct (IH _ _ Hbs H) as (ps & Hps & Hpages & Hbatches).
    exists (p :: ps). cbn [mapM]. rewrite Hp, Hps. cbn [bind pages batches] in *.
    rewrite Hpages, <- app_assoc. auto.
Qed.


Lemma loaded_not_skipped li ri t bs :
  Forall (fun b => skipped li ri t b = false) (loaded li ri t bs).
Proof.
  apply Forall_forall. intros b Hb. unfold loaded in Hb.
  apply filter_In in Hb. destruct Hb as [_ Hb]. now apply negb_true_iff.
Qed.


(** ** The statistics of one page *)

Lemma count_bounds (v : list bool) : 0 <= count v <= Z.of_nat (length v).
Proof.
  induction v as [| x v IH]; [simpl; lia |].
  destruct x; simpl length; cbn [count fold_right]; fold (count v); lia.
Qed.

Lemma zip_with_length {A B C : Type} (f : A -> B -> C) (a : list A) (b : list B) :
  length (zip_with f a b) = Nat.min (length a) (length b).
Proof.
  unfold zip_with. now rewrite length_map, length_combine.
Qed.

Lemma zip_with_cons {A B C : Type} (f : A -> B -> C) x (a : list A) y (b : list B) :
  zip_with f (x :: a) (y :: b) = f x y :: zip_with f a b.
Proof. reflexivity. Qed.

Lemma zip_with_nil_r {A B C : Type} (f : A -> B -> C) (a : list A) :
  zip_with f a [] = [].
Proof. unfold zip_with. now rewrite combine_nil. Qed.

Lemma zip_with_nth_rows {A : Type} (f : A -> A -> A) (a b : tensor2 A) (c : nat) :
  nth c (zip_with (zip_with f) a b) [] = zip_with f (nth c a []) (nth c b []).
Proof.
  revert b c. induction a as [| x a IH]; intros b c.
  - destruct c; reflexivity.
  - destruct b as [| y b].
    + rewrite zip_with_nil_r. destruct c; simpl; now rewrite zip_with_nil_r.
    + rewrite zip_with_cons. destruct c; simpl; [reflexivity | apply IH].
Qed.

Lemma sum_dim1_nth (t : tensor2 bool) (c : nat) :
  nth c (sum_dim1 t) 0 = count (nth c t []).
Proof.
  unfold sum_dim1. change 0 with (count []). apply map_nth.
Qed.

Lemma count_and_le_or (a b : list bool) :
  count (zip_with andb a b) <= count (zip_with orb a b).
Proof.
  revert b. induction a as [| x a IH]; intros [| y b]; try (cbn; lia).
  rewrite !zip_with_cons. specialize (IH b).
  destruct x, y; cbn [count fold_right andb orb]; fold (count (zip_with andb a b));
    fold (count (zip_with orb a b)); lia.
Qed.

Lemma count_zip_le_l (f : bool -> bool -> bool) (a b : list bool) :
  count (zip_with f a b) <= Z.of_nat (length a).
Proof.
  pose proof (count_bounds (zip_with f a b)) as H.
  rewrite zip_with_length in H. lia.
Qed.

Lemma broadcast_same {A : Type} (f : A -> A -> A) (a b : tensor2 A) :
  length a = length b -> broadcast f a b = Ok (zip_with (zip_with f) a b).
Proof.
  intros H. unfold broadcast. now rewrite H, Nat.eqb_refl.
Qed.

Lemma interpolate_Ok (y : tensor3 Q) (h w : nat) (y' : tensor3 Q) :
  interpolate y h w = Ok y' ->
  y' = map (resize_grid h w) y /\ (0 < h)%nat /\ (0 < w)%nat /\ y <> [].
Proof.
  unfold interpolate.
  destruct (h =? 0)%nat eqn:Hh; [discriminate |].
  destruct (w =? 0)%nat eqn:Hw; [discriminate |].
  destruct (size1 y =? 0)%nat eqn:Hy; [discriminate |].
  destruct (size2 y =? 0)%nat; [discriminate |].
  simpl. intros H. injection H as <-.
  apply Nat.eqb_neq in Hh, Hw, Hy.
  repeat split; try lia.
  intros ->. now apply Hy.
Qed.

Lemma resize_grid_shape (h w : nat) (g : list (list Q)) :
  length (resize_grid h w g) = h
  /\ Forall (fun r => length r = w) (resize_grid h w g).
Proof.
  unfold resize_grid. split.
  - now rewrite length_map, length_seq.
  - apply Forall_forall. intros r Hr. apply in_map_iff in Hr.
    destruct Hr as (i & <- & _). now rewrite length_map, length_seq.
Qed.

Lemma concat_length_rect {A : Type} (w : nat) (g : list (list A)) :
  Forall (fun r => length r = w) g -> length (concat g) = (length g * w)%nat.
Proof.
  induction 1 as [| r g Hr _ IH]; simpl; [reflexivity |].
  rewrite length_app, IH, Hr. lia.
Qed.

Lemma map_nth_lt {A B : Type} (f : A -> B) (l : list A) (d : A) (d' : B) (c : nat) :
  (c < length l)%nat -> nth c (map f l) d' = f (nth c l d).
Proof.
  revert c. induction l as [| a l IH]; intros c Hc; simpl in *; [lia |].
  destruct c; [reflexivity | apply IH; lia].
Qed.

(** After [interpolate], [bool] and [view], every row of the target has
    [h * w] entries. *)
Lemma target_row_length (h w : nat) (y : tensor3 Q) (c : nat) :
  (c < length y)%nat ->
  length (nth c (view (to_bool (map (resize_grid h w) y))) []) = (h * w)%nat.
Proof.
  intros Hc. unfold view, to_bool. rewrite !map_map.
  rewrite (map_nth_lt _ y [] [] c Hc).
  destruct (resize_grid_shape h w (nth c y [])) as [H1 H2].
  rewrite (concat_length_rect w).
  - now rewrite length_map, H1.
  - apply Forall_forall. intros r Hr. apply in_map_iff in Hr.
    destruct Hr as (r' & <- & Hr'). rewrite length_map.
    rewrite Forall_forall in H2. now apply H2.
Qed.

Lemma size1_target (h w : nat) (y : tensor3 Q) :
  y <> [] ->
  size1 (view (to_bool (map (resize_grid h w) y))) = (h * w)%nat.
Proof.
  intros Hy. unfold size1.
  destruct y as [| g y]; [congruence |].
  change (hd [] (view (to_bool (map (resize_grid h w) (g :: y)))))
    with (nth 0 (view (to_bool (map (resize_grid h w) (g :: y)))) []).
  apply target_row_length. simpl. lia.
Qed.

(** The per-class part of what [page_stats] returns. *)
Lemma page_stats_Ok li ri t b p :
  page_stats li ri t b = Ok p ->
  exists pred y,
    nn_out b = Ok pred
    /\ interpolate (target b) (size1 pred) (size2 pred) = Ok y
    /\ exists i u c,
        broadcast andb (view (to_bool y)) (view (gt pred t)) = Ok i
        /\ broadcast orb (view (to_bool y)) (view (gt pred t)) = Ok u
        /\ broadcast Bool.eqb (view (to_bool y)) (view (gt pred t)) = Ok c
        /\ category_stats li (view (to_bool y)) (view (gt pred t)) = Ok (baselines p)
        /\ category_stats ri (view (to_bool y)) (view (gt pred t)) = Ok (regions p)
        /\ intersections p = sum_dim1 i
        /\ unions p = sum_dim1 u
        /\ corrects p = sum_dim1 c
        /\ cls_cnt p = sum_dim1 (view (to_bool y))
        /\ all_n p = Z.of_nat (size1 (view (to_bool y))).
Proof.
  unfold page_stats. intros H.
  apply bind_Ok in H. destruct H as (pred & Hpred & H).
  apply bind_Ok in H. destruct H as (y & Hy & H).
  apply bind_Ok in H. destruct H as (i & Hi & H).
  apply bind_Ok in H. destruct H as (u & Hu & H).
  apply bind_Ok in H. destruct H as (c & Hc & H).
  apply bind_Ok in H. destruct H as (bl & Hbl & H).
  apply bind_Ok in H. destruct H as (rg & Hrg & H).
  injection H as <-. cbn.
  exists pred, y. repeat split; try assumption.
  exists i, u, c. repeat split; assumption.
Qed.

Lemma page_stats_ok C li ri t b p :
  wf_batch C b -> page_stats li ri t b = Ok p -> page_ok C p /\ (0 < C)%nat.
Proof.
  intros Hwf H.
  destruct (page_stats_Ok _ _ _ _ _ H)
    as (pred & y & Hpred & Hy & i & u & c & Hi & Hu & Hc & _ & _ & Ei & Eu & Ec & Ek & En).
  destruct (Hwf pred Hpred) as [HCp HCy].
  destruct (interpolate_Ok _ _ _ _ Hy) as (-> & Hh & Hw & Hne).
  set (yb := view (to_bool (map (resize_grid (size1 pred) (size2 pred)) (target b)))) in *.
  set (pb := view (gt pred t)) in *.
  assert (Lyb : length yb = C).
  { unfold yb, view, to_bool. now rewrite !length_map. }
  assert (Lpb : length pb = C).
  { unfold pb, view, gt. now rewrite !length_map. }
  rewrite broadcast_same in Hi, Hu, Hc by congruence.
  injection Hi as <-. injection Hu as <-. injection Hc as <-.
  assert (Hn : all_n p = Z.of_nat (size1 pred * size2 pred)).
  { rewrite En. unfold yb. now rewrite size1_target. }
  assert (Hrow : forall k, Z.of_nat (length (nth k yb [])) <= all_n p).
  { intros k. destruct (Nat.lt_ge_cases k (length (target b))) as [Hk | Hk].
    - unfold yb. rewrite target_row_length by assumption. lia.
    - rewrite nth_overflow by lia. simpl. lia. }
  split.
  - constructor.
    + rewrite Ei. unfold sum_dim1. rewrite length_map, zip_with_length. lia.
    + rewrite Eu. unfold sum_dim1. rewrite length_map, zip_with_length. lia.
    + rewrite Ec. unfold sum_dim1. rewrite length_map, zip_with_length. lia.
    + rewrite Ek. unfold sum_dim1. now rewrite length_map.
    + rewrite Hn. nia.
    + intros k. rewrite Ei, Eu, !sum_dim1_nth, !zip_with_nth_rows.
      split; [apply count_bounds | apply count_and_le_or].
    + intros k. rewrite Eu, sum_dim1_nth, zip_with_nth_rows.
      pose proof (count_zip_le_l orb (nth k yb []) (nth k pb [])).
      specialize (Hrow k). lia.
    + intros k. rewrite Ec, sum_dim1_nth, zip_with_nth_rows.
      pose proof (count_zip_le_l Bool.eqb (nth k yb []) (nth k pb [])).
      pose proof (count_bounds (zip_with Bool.eqb (nth k yb []) (nth k pb []))).
      specialize (Hrow k). lia.
    + intros k. rewrite Ek, sum_dim1_nth.
      pose proof (count_bounds (nth k yb [])). specialize (Hrow k). lia.
  - destruct (target b); [congruence | simpl in HCy; lia].
Qed.

(** ** From the loop to the per-class metrics *)

Lemma foldM_pages_inv (P : page -> Prop) li ri t (bs : list batch) :
  (forall b p, In b bs -> page_stats li ri t b = Ok p -> P p) ->
  forall st st',
    foldM (loop_step li ri t) bs st = Ok st' ->
    Forall P (pages st) -> Forall P (pages st').
Proof.
  induction bs as [| b bs IH]; intros HP st st' H Hst.
  - simpl in H. now injection H as <-.
  - cbn [foldM] in H. apply bind_Ok in H. destruct H as (st1 & H1 & H).
    apply (IH (fun b' p Hb' => HP b' p (or_intror Hb')) st1 st' H).
    unfold loop_step in H1.
    destruct (page_stats li ri t b) as [p | []] eqn:Hp;
      try discriminate; injection H1 as <-; cbn [pages]; try assumption.
    apply Forall_app. split; [assumption |].
    constructor; [| constructor]. apply (HP b p); [now left | assumption].
Qed.

Lemma run_loop_pages_ok C li ri t bs st :
  Forall (wf_batch C) bs ->
  run_loop li ri t bs = Ok st ->
  Forall (page_ok C) (pages st) /\ (pages st <> [] -> (0 < C)%nat).
Proof.
  intros Hwf H.
  assert (HF : Forall (fun p => page_ok C p /\ (0 < C)%nat) (pages st)).
  { apply (foldM_pages_inv _ li ri t bs) with (st := {| pages := []; batches := Z.of_nat (length bs) |}).
    - intros b p Hb Hp. rewrite Forall_forall in Hwf.
      apply (page_stats_ok C li ri t b p); auto.
    - exact H.
    - constructor. }
  split.
  - eapply Forall_impl; [| exact HF]. now intros p [Hp _].
  - destruct (pages st) as [| p ps]; [congruence |].
    inversion HF as [| ? ? [_ HC] _]. auto.
Qed.

Lemma stack_sum_Ok (f : page -> list Z) (C : nat) (pages : list page) :
  pages <> [] ->
  Forall (fun p => length (f p) = C) pages ->
  stack_sum (map f pages) = Ok (map (total f pages) (seq 0 C)).
Proof.
  intros Hne HF. destruct pages as [| p0 ps]; [congruence |].
  unfold stack_sum. cbn [map].
  assert (H0 : length (f p0) = C) by (inversion HF; assumption).
  assert (Hall : forallb (fun t => (length t =? length (f p0))%nat) (f p0 :: map f ps) = true).
  { apply forallb_forall. intros t Ht.
    change (f p0 :: map f ps) with (map f (p0 :: ps)) in Ht.
    apply in_map_iff in Ht. destruct Ht as (p & <- & Hp).
    rewrite Forall_forall in HF. rewrite (HF p Hp), H0. apply Nat.eqb_refl. }
  rewrite Hall, H0. f_equal. apply map_ext. intros c.
  unfold total. cbn [map]. now rewrite map_map.
Qed.

Lemma stack_sum_all_Ok (f : page -> list Z) (C : nat) (pages : list page) :
  pages <> [] ->
  Forall (fun p => length (f p) = C) pages ->
  stack_sum_all (map f pages) = Ok (zsum (map zsum (map f pages))).
Proof.
  intros Hne HF. destruct pages as [| p0 ps]; [congruence |].
  unfold stack_sum_all. cbn [map].
  assert (H0 : length (f p0) = C) by (inversion HF; assumption).
  assert (Hall : forallb (fun t => (length t =? length (f p0))%nat) (f p0 :: map f ps) = true).
  { apply forallb_forall. intros t Ht.
    change (f p0 :: map f ps) with (map f (p0 :: ps)) in Ht.
    apply in_map_iff in Ht. destruct Ht as (p & <- & Hp).
    rewrite Forall_forall in HF. rewrite (HF p Hp), H0. apply Nat.eqb_refl. }
  now rewrite Hall.
Qed.

Lemma stack_sum_scalars_Ok (l : list Z) :
  l <> [] -> stack_sum_scalars l = Ok (zsum l).
Proof.
  destruct l; [congruence | reflexivity].
Qed.

Lemma zsum_nonneg (l : list Z) : Forall (fun z => 0 <= z) l -> 0 <= zsum l.
Proof.
  induction 1; simpl; lia.
Qed.


Lemma zsum_le (f g : page -> Z) (pages : list page) :
  (forall p, In p pages -> f p <= g p) ->
  zsum (map f pages) <= zsum (map g pages).
Proof.
  induction pages as [| p ps IH]; intros H; simpl; [lia |].
  pose proof (H p (or_introl eq_refl)).
  assert (zsum (map f ps) <= zsum (map g ps)); [| lia].
  apply IH. intros q Hq. apply H. now right.
Qed.

Lemma zip_with_map_seq {A B C : Type} (f : A -> B -> C) (g : nat -> A) (h : nat -> B)
    (l : list nat) :
  zip_with f (map g l) (map h l) = map (fun c => f (g c) (h c)) l.
Proof.
  induction l as [| a l IH]; [reflexivity |].
  cbn [map]. rewrite zip_with_cons. now rewrite IH.
Qed.

(** What [global_metrics] returns on pages of [C] classes. *)
Lemma global_metrics_Ok (C : nat) (pages : list page) :
  pages <> [] ->
  Forall (page_ok C) pages ->
  let n := zsum (map all_n pages) in
  let cnt := zsum (map zsum (map cls_cnt pages)) in
  let acc := map (fun c => tdiv (inject_Z (total corrects pages c)) (inject_Z n)) (seq 0 C) in
  let ciu := map (fun c => iu smooth (total intersections pages c) (total unions pages c))
                 (seq 0 C) in
  global_metrics pages
  = Ok {| class_pixel_accuracy := acc;
          mean_accuracy := tmean acc;
          class_iu := ciu;
          mean_iu := tmean ciu;
          freq_iu := tmul (tdiv (inject_Z cnt) (inject_Z cnt)) (tsum ciu) |}.
Proof.
  intros Hne HF n cnt acc ciu. unfold global_metrics.
  rewrite (stack_sum_Ok corrects C), (stack_sum_Ok intersections C),
    (stack_sum_Ok unions C), (stack_sum_all_Ok cls_cnt C); try assumption;
    try (eapply Forall_impl; [| exact HF]; intros p Hp; apply Hp).
  rewrite stack_sum_scalars_Ok by (destruct pages; [congruence | discriminate]).
  cbn [bind]. rewrite zip_with_map_seq, map_map. reflexivity.
Qed.

Lemma total_bounds (C : nat) (pages : list page) (c : nat) :
  Forall (page_ok C) pages ->
  0 <= total intersections pages c <= total unions pages c
  /\ 0 <= total corrects pages c <= zsum (map all_n pages)
  /\ total unions pages c <= zsum (map all_n pages).
Proof.
  intros HF. rewrite Forall_forall in HF. unfold total.
  repeat split.
  - apply zsum_nonneg. apply Forall_forall. intros z Hz.
    apply in_map_iff in Hz. destruct Hz as (p & <- & Hp).
    apply (ok_inter_union C p (HF p Hp)).
  - apply zsum_le. intros p Hp. apply (ok_inter_union C p (HF p Hp)).
  - apply zsum_nonneg. apply Forall_forall. intros z Hz.
    apply in_map_iff in Hz. destruct Hz as (p & <- & Hp).
    apply (ok_correct_all C p (HF p Hp)).
  - apply zsum_le. intros p Hp. apply (ok_correct_all C p (HF p Hp)).
  - apply zsum_le. intros p Hp. apply (ok_union_all C p (HF p Hp)).
Qed.


Lemma tdiv_Some (a b : Q) : ~ (b == 0)%Q -> tdiv a b = Some (a / b)%Q.
Proof.
  intros Hb. unfold tdiv. destruct (Qeq_bool b 0) eqn:E; [| reflexivity].
  apply Qeq_bool_eq in E. contradiction.
Qed.

Lemma inject_Z_nonneg (z : Z) : 0 <= z -> (0 <= inject_Z z)%Q.
Proof.
  intros H. change 0%Q with (inject_Z 0). now rewrite <- Zle_Qle.
Qed.

Lemma inject_Z_pos (z : Z) : 0 < z -> (0 < inject_Z z)%Q.
Proof.
  intros H. change 0%Q with (inject_Z 0). now rewrite <- Zlt_Qlt.
Qed.

Lemma smooth_pos : (0 < smooth)%Q.
Proof. reflexivity. Qed.

Lemma iu_Some (i u : Z) :
  0 <= u -> iu smooth i u = Some ((inject_Z i + smooth) / (inject_Z u + smooth))%Q.
Proof.
  intros Hu. unfold iu. apply tdiv_Some.
  pose proof (inject_Z_nonneg u Hu). pose proof smooth_pos. lra.
Qed.

Lemma tsum_Some (l : list Q) : tsum (map Some l) = Some (qsum l).
Proof.
  induction l as [| q l IH]; [reflexivity |].
  cbn [map tsum fold_right]. fold (tsum (map Some l)). now rewrite IH.
Qed.





(** ** Binarization and resizing *)




(** ** The frequency-weighted IoU *)

(** X1.  What line 1517 computes: since [cls_cnt] has been summed to a scalar,
    [cls_cnt / cls_cnt.sum()] is one, and the result is the plain sum of
    the per-class IoU values whenever some pixel is ground truth. *)
Lemma freq_iu_is_sum_of_class_iu (C : nat) (pages : list page) (m : metrics) :
  pages <> [] ->
  Forall (page_ok C) pages ->
  global_metrics pages = Ok m ->
  zsum (map zsum (map cls_cnt pages)) <> 0 ->
  exists ius v,
    class_iu m = map Some ius /\ freq_iu m = Some v /\ (v == qsum ius)%Q.
Proof.
  intros Hne HF Hm Hcnt.
  rewrite (global_metrics_Ok C pages Hne HF) in Hm. injection Hm as <-.
  cbn [class_iu freq_iu].
  set (cnt := zsum (map zsum (map cls_cnt pages))) in *.
  set (ius := map (fun c => ((inject_Z (total intersections pages c) + smooth)
                             / (inject_Z (total unions pages c) + smooth))%Q)
                  (seq 0 C)).
  assert (Hiu : map (fun c => iu smooth (total intersections pages c)
                                  (total unions pages c)) (seq 0 C)
                = map Some ius).
  { unfold ius. rewrite map_map. apply map_ext. intros c.
    apply iu_Some. destruct (total_bounds C pages c HF) as ((? & ?) & _). lia. }
  assert (Hq : ~ (inject_Z cnt == 0)%Q).
  { change 0%Q with (inject_Z 0). rewrite inject_Z_injective. exact Hcnt. }
  exists ius. eexists. rewrite Hiu, tsum_Some, (tdiv_Some _ _ Hq). cbn [tmul].
  repeat split. field. exact Hq.
Qed.

(** C1.  On the test set of one page [two_class_page] the command prints
    as frequency-weighted IoU the number 8388610/8388609, the sum of the
    two per-class IoU values, where the formula of the specification,
    with the ground-truth pixel counts 2 and 1 of the two classes as
    weights, gives 16777219/25165827. *)
Theorem C1_freq_iu_diverges :
  exists r st v w,
    segtest two_class_mapping (1 # 2) [two_class_page] = Ok r
    /\ run_loop [0; 1]%nat [] (1 # 2) [two_class_page] = Ok st
    /\ stack_sum (map cls_cnt (pages st)) = Ok [2; 1]
    /\ freq_iu (report_metrics r) = Some v
    /\ freq_weighted_iu_spec [2; 1] (class_iu (report_metrics r)) = Some w
    /\ (v == 8388610 # 8388609)%Q
    /\ (w == 16777219 # 25165827)%Q
    /\ ~ (v == w)%Q.
Proof.
  do 4 eexists.
  split; [vm_compute; reflexivity |].
  split; [vm_compute; reflexivity |].
  split; [vm_compute; reflexivity |].
  split; [vm_compute; reflexivity |].
  split; [vm_compute; reflexivity |].
  split; [vm_compute; reflexivity |].
  split; [vm_compute; reflexivity |].
  vm_compute. discriminate.
Qed.

(** C3.  On the same test set the printed frequency-weighted IoU is above
    one, while the two per-class IoU values it is made of lie in the
    unit interval. *)
Theorem C3_freq_iu_above_one :
  exists r v i0 i1,
    segtest two_class_mapping (1 # 2) [two_class_page] = Ok r
    /\ freq_iu (report_metrics r) = Some v
    /\ class_iu (report_metrics r) = [Some i0; Some i1]
    /\ (0 <= i0 <= 1)%Q /\ (0 <= i1 <= 1)%Q
    /\ (1 < v)%Q.
Proof.
  do 4 eexists.
  split; [vm_compute; reflexivity |].
  split; [vm_compute; reflexivity |].
  split; [vm_compute; reflexivity |].
  repeat split; vm_compute; discriminate || reflexivity.
Qed.

(** ** The pairwise overlap of one page *)

Lemma getitem_Ok {A : Type} (l : list A) (d : A) (i : nat) :
  (i < length l)%nat -> getitem l i = Ok (nth i l d).
Proof.
  intros H. unfold getitem. now rewrite (nth_error_nth' l d H).
Qed.

Lemma select_Ok (t : tensor2 bool) (idxs : list nat) :
  (forall c, In c idxs -> (c < length t)%nat) ->
  select t idxs = Ok (map (fun c => nth c t []) idxs).
Proof.
  intros H. unfold select. rewrite <- mapM_pure. apply mapM_ext.
  intros c Hc. apply getitem_Ok. auto.
Qed.

Lemma others_In (classes : list nat) (ci cj : nat) :
  In cj (others classes ci) <-> In cj classes /\ cj <> ci.
Proof.
  unfold others. rewrite filter_In, negb_true_iff, Nat.eqb_neq. tauto.
Qed.

Lemma others_notin (classes : list nat) (ci : nat) :
  ~ In ci classes -> others classes ci = classes.
Proof.
  unfold others. induction classes as [| c l IH]; intros H; simpl; [reflexivity |].
  destruct (c =? ci)%nat eqn:E.
  - apply Nat.eqb_eq in E. subst. exfalso. apply H. now left.
  - simpl. f_equal. apply IH. intros Hin. apply H. now right.
Qed.

Lemma others_length (classes : list nat) (ci : nat) :
  NoDup classes -> In ci classes ->
  length (others classes ci) = (length classes - 1)%nat.
Proof.
  induction 1 as [| c l Hc Hl IH]; intros Hin; [contradiction |].
  unfold others in *. simpl. destruct (c =? ci)%nat eqn:E; simpl.
  - apply Nat.eqb_eq in E. subst c.
    rewrite (others_notin l ci Hc : filter _ l = l). lia.
  - destruct Hin as [-> | Hin]; [rewrite Nat.eqb_refl in E; discriminate |].
    rewrite IH by assumption.
    destruct l; [contradiction | simpl; lia].
Qed.

Lemma zip_with_repeat_l {A B C : Type} (f : A -> B -> C) (a : A) (l : list B) (n : nat) :
  (length l <= n)%nat -> zip_with f (repeat a n) l = map (f a) l.
Proof.
  revert n. induction l as [| b l IH]; intros n Hn.
  - apply zip_with_nil_r.
  - destruct n as [| n]; simpl in Hn; [lia |].
    cbn [repeat map]. rewrite zip_with_cons. f_equal. apply IH. lia.
Qed.

(** The row of [line_idx] in the stacked tensor: one entry per other
    class, the target mask of [line_idx] against the predicted mask of
    that class. *)
Lemma overlap_row_Ok (op : bool -> bool -> bool) (classes : list nat)
    (y pred : tensor2 bool) (ci : nat) :
  NoDup classes ->
  (forall c, In c classes -> (c < length y)%nat /\ (c < length pred)%nat) ->
  In ci classes ->
  overlap_row op classes y pred ci
  = Ok (map (pair_count op y pred ci) (others classes ci)).
Proof.
  intros Hnd Hrange Hin. unfold overlap_row.
  rewrite (getitem_Ok y []) by (apply Hrange; assumption). cbn [bind].
  rewrite select_Ok.
  2:{ intros c Hc. apply others_In in Hc. apply Hrange. tauto. }
  cbn [bind].
  rewrite broadcast_same.
  2:{ now rewrite repeat_length, length_map, others_length. }
  cbn [bind]. f_equal.
  rewrite zip_with_repeat_l by (rewrite length_map, others_length by assumption; lia).
  unfold sum_dim1, pair_count. now rewrite !map_map.
Qed.

Lemma _compute_iou_overlap_Ok (classes : list nat) (y pred : tensor2 bool) :
  NoDup classes ->
  (forall c, In c classes -> (c < length y)%nat /\ (c < length pred)%nat) ->
  _compute_iou_overlap classes y pred
  = Ok {| conf_intersections :=
            map (fun ci => map (pair_count andb y pred ci) (others classes ci)) classes;
          conf_unions :=
            map (fun ci => map (pair_count orb y pred ci) (others classes ci)) classes |}.
Proof.
  intros Hnd Hrange. unfold _compute_iou_overlap.
  rewrite (mapM_ext (overlap_row andb classes y pred)
             (fun ci => Ok (map (pair_count andb y pred ci) (others classes ci))))
    by (intros; now apply overlap_row_Ok).
  rewrite mapM_pure. cbn [bind].
  rewrite (mapM_ext (overlap_row orb classes y pred)
             (fun ci => Ok (map (pair_count orb y pred ci) (others classes ci))))
    by (intros; now apply overlap_row_Ok).
  rewrite mapM_pure. reflexivity.
Qed.

Lemma category_stats_confusion (classes : list nat) (y pred : tensor2 bool) :
  (1 < length classes)%nat ->
  NoDup classes ->
  (forall c, In c classes -> (c < length y)%nat /\ (c < length pred)%nat) ->
  exists s conf,
    category_stats classes y pred = Ok (Some s)
    /\ cat_confusion s = Some conf
    /\ _compute_iou_overlap classes y pred = Ok conf.
Proof.
  intros Hk Hnd Hrange. unfold category_stats.
  destruct classes as [| c0 cl] eqn:E; [simpl in Hk; lia |]. rewrite <- E in *.
  rewrite !select_Ok by (intros c Hc; apply Hrange; assumption).
  cbn [bind].
  apply Nat.ltb_lt in Hk. rewrite Hk.
  rewrite (_compute_iou_overlap_Ok classes y pred Hnd Hrange). cbn [bind].
  eexists. eexists. split; [reflexivity |]. split; reflexivity.
Qed.

(** C2, the claim refuted: on [three_class_page], whose masks are
    [three_class_y] and [three_class_pred], the row of class 0 of the
    intersection matrix is [[1; 0]], one count per other class; the two
    columns differ, whereas class 0 against the OR of the two other
    classes counts one pixel whatever the column. *)
Lemma C2_overlap_not_against_rest :
  exists p s conf,
    page_stats [0; 1; 2]%nat [] (1 # 2) three_class_page = Ok p
    /\ baselines p = Some s
    /\ cat_confusion s = Some conf
    /\ _compute_iou_overlap [0; 1; 2]%nat three_class_y three_class_pred = Ok conf
    /\ conf_intersections conf = [[1; 0]; [0; 0]; [0; 0]]
    /\ overlap_against_rest_spec andb [0; 1; 2]%nat three_class_y three_class_pred 0 = 1
    /\ nth 1 (nth 0 (conf_intersections conf) []) 0
       <> overlap_against_rest_spec andb [0; 1; 2]%nat three_class_y three_class_pred 0
    /\ nth 0 (nth 0 (conf_intersections conf) []) 0
       <> nth 1 (nth 0 (conf_intersections conf) []) 0.
Proof.
  do 3 eexists.
  split; [vm_compute; reflexivity |].
  split; [reflexivity |].
  split; [reflexivity |].
  split; [vm_compute; reflexivity |].
  split; [reflexivity |].
  split; [vm_compute; reflexivity |].
  split; vm_compute; discriminate.
Qed.

(** C2, as amended.  For a list of at least two distinct class indices
    within the tensors, the statistics of the category hold a confusion
    record with two matrices of one row per class and one column per
    other class; the entry of row [ci] and column [cj] counts the pixels
    where the target mask of [ci] and (for the unions: or) the predicted
    mask of [cj] hold. *)
Theorem C2_overlap_pairwise (classes : list nat) (y pred : tensor2 bool) :
  (1 < length classes)%nat ->
  NoDup classes ->
  (forall c, In c classes -> (c < length y)%nat /\ (c < length pred)%nat) ->
  exists s conf,
    category_stats classes y pred = Ok (Some s)
    /\ cat_confusion s = Some conf
    /\ _compute_iou_overlap classes y pred = Ok conf
    /\ length (conf_intersections conf) = length classes
    /\ length (conf_unions conf) = length classes
    /\ forall i ci,
        nth_error classes i = Some ci ->
        exists row_i row_u,
          nth_error (conf_intersections conf) i = Some row_i
          /\ nth_error (conf_unions conf) i = Some row_u
          /\ length row_i = (length classes - 1)%nat
          /\ length row_u = (length classes - 1)%nat
          /\ forall j cj,
              nth_error (others classes ci) j = Some cj ->
              In cj classes /\ cj <> ci
              /\ nth_error row_i j = Some (pair_count andb y pred ci cj)
              /\ nth_error row_u j = Some (pair_count orb y pred ci cj).
Proof.
  intros Hk Hnd Hrange.
  destruct (category_stats_confusion classes y pred Hk Hnd Hrange)
    as (s & conf & Hs & Hc & Hconf).
  exists s, conf. do 3 (split; [assumption |]).
  rewrite (_compute_iou_overlap_Ok classes y pred Hnd Hrange) in Hconf.
  injection Hconf as <-. cbn [conf_intersections conf_unions].
  rewrite !length_map. do 2 (split; [reflexivity |]).
  intros i ci Hi.
  assert (Hin : In ci classes) by (eapply nth_error_In; eassumption).
  do 2 eexists.
  split; [rewrite nth_error_map, Hi; reflexivity |].
  split; [rewrite nth_error_map, Hi; reflexivity |].
  rewrite !length_map, others_length by assumption.
  do 2 (split; [reflexivity |]).
  intros j cj Hj.
  assert (Hcj : In cj (others classes ci)) by (eapply nth_error_In; eassumption).
  apply others_In in Hcj. destruct Hcj as [Hcj1 Hcj2].
  do 2 (split; [assumption |]).
  rewrite !nth_error_map, Hj. split; reflexivity.
Qed.

(** ** Dictionaries *)

Section Dict.
Context {K V : Type} (eqb : K -> K -> bool).
Hypothesis eqb_eq : forall a b, eqb a b = true <-> a = b.

Lemma eqb_refl' (k : K) : eqb k k = true.
Proof. now apply eqb_eq. Qed.

Lemma eqb_neq' (a b : K) : a <> b -> eqb a b = false.
Proof.
  intros H. destruct (eqb a b) eqn:E; [| reflexivity].
  apply eqb_eq in E. contradiction.
Qed.

Lemma dict_get_set_same (k : K) (v : V) (d : dict K V) :
  dict_get eqb k (dict_set eqb k v d) = Ok v.
Proof.
  induction d as [| [k' v'] d IH]; simpl.
  - now rewrite eqb_refl'.
  - destruct (eqb k' k) eqn:E; simpl; rewrite E; [reflexivity | assumption].
Qed.

Lemma dict_get_set_other (k k0 : K) (v : V) (d : dict K V) :
  k0 <> k -> dict_get eqb k (dict_set eqb k0 v d) = dict_get eqb k d.
Proof.
  intros Hne. induction d as [| [k' v'] d IH]; simpl.
  - now rewrite (eqb_neq' k0 k Hne).
  - destruct (eqb k' k0) eqn:E; simpl.
    + apply eqb_eq in E. subst k'. now rewrite (eqb_neq' k0 k Hne).
    + destruct (eqb k' k); [reflexivity | assumption].
Qed.



Lemma dict_get_update_notin (items : list (K * V)) :
  forall (d : dict K V) (k : K),
    ~ In k (map fst items) ->
    dict_get eqb k (dict_update eqb d items) = dict_get eqb k d.
Proof.
  unfold dict_update.
  induction items as [| [k0 v0] items IH]; intros d k Hk; simpl in *; [reflexivity |].
  rewrite IH by tauto. apply dict_get_set_other. tauto.
Qed.

Lemma dict_get_update_In (items : list (K * V)) :
  forall (d : dict K V) (k : K) (v : V),
    NoDup (map fst items) ->
    In (k, v) items ->
    dict_get eqb k (dict_update eqb d items) = Ok v.
Proof.
  unfold dict_update.
  induction items as [| [k0 v0] items IH]; intros d k v Hnd Hin; simpl in *;
    [contradiction |].
  inversion Hnd as [| ? ? Hk0 Hnd']; subst.
  destruct Hin as [H | H].
  - injection H as -> ->.
    fold (dict_update eqb (dict_set eqb k v d) items).
    rewrite dict_get_update_notin by assumption.
    apply dict_get_set_same.
  - now apply IH.
Qed.
End Dict.

Lemma string_eqb_eq (a b : string) : String.eqb a b = true <-> a = b.
Proof. apply String.eqb_eq. Qed.

(** ** enumerate *)

Lemma enumerate_In {A : Type} (l : list A) (i : nat) (a : A) :
  In (i, a) (enumerate l) <-> nth_error l i = Some a.
Proof.
  unfold enumerate.
  assert (G : forall k, In (i, a) (combine (seq k (length l)) l)
                        <-> (k <= i)%nat /\ nth_error l (i - k) = Some a).
  { induction l as [| x l IH]; intros k; simpl.
    - split; [contradiction |]. intros [_ H]. destruct (i - k)%nat; discriminate.
    - rewrite IH. split.
      + intros [H | [H1 H2]].
        * injection H as <- <-. rewrite Nat.sub_diag. auto.
        * split; [lia |]. replace (i - k)%nat with (S (i - S k)) by lia. exact H2.
      + intros [H1 H2]. destruct (Nat.eq_dec k i) as [-> | Hne].
        * rewrite Nat.sub_diag in H2. injection H2 as ->. now left.
        * right. split; [lia |].
          replace (i - k)%nat with (S (i - S k)) in H2 by lia. exact H2. }
  rewrite G, Nat.sub_0_r. split; [tauto | intros; split; [lia | assumption]].
Qed.

Lemma enumerate_length {A : Type} (l : list A) : length (enumerate l) = length l.
Proof.
  unfold enumerate. rewrite length_combine, length_seq. lia.
Qed.

Lemma enumerate_nth {A : Type} (l : list A) (i : nat) (a : A) :
  nth_error l i = Some a -> nth_error (enumerate l) i = Some (i, a).
Proof.
  unfold enumerate. intros H.
  assert (Hi : (i < length l)%nat) by (apply nth_error_Some; congruence).
  assert (G : forall k, nth_error (combine (seq k (length l)) l) i = Some ((k + i)%nat, a)).
  { clear Hi. revert i H. induction l as [| x l IH]; intros i H k.
    - destruct i; discriminate.
    - destruct i as [| i]; simpl in *.
      + injection H as ->. now rewrite Nat.add_0_r.
      + rewrite (IH i H (S k)). do 2 f_equal. lia. }
  now rewrite G.
Qed.

Lemma enumerate_fst_NoDup {A : Type} (l : list A) : NoDup (map fst (enumerate l)).
Proof.
  unfold enumerate.
  assert (H : map fst (combine (seq 0 (length l)) l) = seq 0 (length l)).
  { generalize 0%nat. induction l as [| x l IH]; intros k; simpl; [reflexivity |].
    now rewrite IH. }
  rewrite H. apply seq_NoDup.
Qed.

Section DictNoDup.
Context {K V : Type} (eqb : K -> K -> bool).
Hypothesis eqb_eq : forall a b, eqb a b = true <-> a = b.


End DictNoDup.

(** ** The overlap table *)




Lemma conf_total_bounds (cat : category) (k : nat) (pages : list page) (i j : nat) :
  Forall (has_confusion cat k) pages ->
  0 <= conf_total conf_intersections cat pages i j
    <= conf_total conf_unions cat pages i j.
Proof.
  intros HF. rewrite Forall_forall in HF. unfold conf_total. split.
  - apply zsum_nonneg. apply Forall_forall. intros z Hz.
    apply in_map_iff in Hz. destruct Hz as (x & <- & Hx).
    destruct (HF x Hx) as (c & Hc & _ & _ & Hb).
    unfold conf_entry. rewrite Hc. apply Hb.
  - apply zsum_le. intros x Hx.
    destruct (HF x Hx) as (c & Hc & _ & _ & Hb).
    unfold conf_entry. rewrite Hc. apply Hb.
Qed.












(** ** Aggregation as a fold *)

Lemma zip_with_add_nth (a b : list Z) (c : nat) :
  length a = length b ->
  nth c (zip_with Z.add a b) 0 = nth c a 0 + nth c b 0.
Proof.
  revert b c. induction a as [| x a IH]; intros [| y b] c H; try discriminate.
  - destruct c; reflexivity.
  - rewrite zip_with_cons. destruct c; simpl; [reflexivity |].
    apply IH. simpl in H. lia.
Qed.

Lemma fold_add_nth (ts : list (list Z)) :
  forall (acc : list Z) (c : nat),
    Forall (fun t => length t = length acc) ts ->
    length (fold_left (zip_with Z.add) ts acc) = length acc
    /\ nth c (fold_left (zip_with Z.add) ts acc) 0
       = nth c acc 0 + zsum (map (fun t => nth c t 0) ts).
Proof.
  induction ts as [| t ts IH]; intros acc c HF; simpl.
  - split; [reflexivity | lia].
  - inversion HF as [| ? ? Ht HF']; subst.
    assert (Hl : length (zip_with Z.add acc t) = length acc).
    { rewrite zip_with_length. lia. }
    destruct (IH (zip_with Z.add acc t) c) as [H1 H2].
    { eapply Forall_impl; [| exact HF']. intros t' Ht'. simpl in *. lia. }
    rewrite H1, H2, zip_with_add_nth by lia. split; [exact Hl | lia].
Qed.

(** The sum that [torch.stack(ts, -1).sum(dim=-1)] takes is the fold of
    the elementwise addition over the pages, started from zeros. *)
Lemma stack_sum_is_fold (ts : list (list Z)) (v : list Z) :
  stack_sum ts = Ok v ->
  v = fold_left (zip_with Z.add) ts (repeat 0 (length v)).
Proof.
  unfold stack_sum. destruct ts as [| t0 ts']; [discriminate |].
  destruct (forallb _ (t0 :: ts')) eqn:E; [| discriminate].
  intros H. injection H as <-.
  rewrite length_map, length_seq.
  set (ts := t0 :: ts') in *. set (n := length t0) in *.
  assert (HF : Forall (fun t => length t = length (repeat 0 n)) ts).
  { rewrite forallb_forall in E. apply Forall_forall. intros t Ht.
    rewrite repeat_length. apply Nat.eqb_eq. now apply E. }
  apply (nth_ext _ _ 0 0).
  - destruct (fold_add_nth ts (repeat 0 n) 0%nat HF) as [H1 _].
    now rewrite H1, length_map, length_seq, repeat_length.
  - intros c Hc. rewrite length_map, length_seq in Hc.
    destruct (fold_add_nth ts (repeat 0 n) c HF) as [_ H2].
    rewrite H2, nth_repeat.
    rewrite (map_nth_lt _ (seq 0 n) 0%nat 0 c) by now rewrite length_seq.
    rewrite seq_nth by assumption. simpl. reflexivity.
Qed.

(** ** The values that stay in the unit interval *)

Lemma Qdiv_unit (a b : Q) : (0 <= a)%Q -> (a <= b)%Q -> (0 < b)%Q -> (0 <= a / b <= 1)%Q.
Proof.
  intros Ha Hab Hb. split.
  - apply Qle_shift_div_l; [assumption | lra].
  - apply Qle_shift_div_r; [assumption | lra].
Qed.

Lemma inject_Z_le (a b : Z) : a <= b -> (inject_Z a <= inject_Z b)%Q.
Proof. intros H. now rewrite <- Zle_Qle. Qed.

Lemma iu_unit (i u : Z) : 0 <= i <= u -> unit_value (iu smooth i u).
Proof.
  intros [Hi Hu]. rewrite iu_Some by lia. eexists. split; [reflexivity |].
  pose proof (inject_Z_nonneg i Hi). pose proof (inject_Z_le i u Hu).
  pose proof smooth_pos. apply Qdiv_unit; lra.
Qed.




(** X3.  Every quotient of the overlap table lies between zero and one. *)
Lemma ov_iu_value_in_unit_interval (cat : category) (k : nat) (pages : list page)
    (i j : nat) :
  Forall (has_confusion cat k) pages ->
  (0 <= ov_iu_value cat pages i j <= 1)%Q.
Proof.
  intros HF. unfold ov_iu_value.
  destruct (conf_total_bounds cat k pages i j HF) as [H0 H1].
  pose proof (inject_Z_nonneg _ H0). pose proof (inject_Z_le _ _ H1).
  pose proof smooth_pos. apply Qdiv_unit; lra.
Qed.

Lemma category_stats_bounds (idx : list nat) (y pred : tensor2 bool)
    (r : option cat_stats) :
  category_stats idx y pred = Ok r ->
  idx <> [] ->
  exists s, r = Some s /\ 0 <= cat_intersections s <= cat_unions s.
Proof.
  unfold category_stats. intros H Hne.
  destruct idx as [| c0 cl] eqn:E; [congruence |]. rewrite <- E in *.
  apply bind_Ok in H. destruct H as (y_rows & _ & H).
  apply bind_Ok in H. destruct H as (pred_rows & _ & H).
  apply bind_Ok in H. destruct H as (conf & _ & H).
  injection H as <-. eexists. split; [reflexivity |].
  cbn [cat_intersections cat_unions].
  split; [apply count_bounds | apply count_and_le_or].
Qed.

Lemma sum_category_Ok (f : cat_stats -> Z) (cat : category) (pages : list page) :
  pages <> [] ->
  Forall (fun p => exists s, page_category cat p = Ok s) pages ->
  sum_category f cat pages
  = Ok (zsum (map (fun p => match page_category cat p with
                            | Ok s => f s
                            | Raise _ => 0
                            end) pages)).
Proof.
  intros Hne HF. unfold sum_category.
  rewrite (mapM_ext _ (fun p => Ok (match page_category cat p with
                                    | Ok s => f s
                                    | Raise _ => 0
                                    end))).
  2:{ intros p Hp. rewrite Forall_forall in HF. destruct (HF p Hp) as (s & ->).
      reflexivity. }
  rewrite mapM_pure. cbn [bind]. apply stack_sum_scalars_Ok.
  destruct pages; [congruence | discriminate].
Qed.

(** X4.  The class-independent IoU of a category with at least one class lies
    between zero and one. *)
Lemma class_independent_iu_in_unit_interval (lines_idx regions_idx : list nat)
    (threshold : Q) (ds_loader : list batch) (st : loop_state) (cat : category) :
  run_loop lines_idx regions_idx threshold ds_loader = Ok st ->
  pages st <> [] ->
  category_idx lines_idx regions_idx cat <> [] ->
  exists v, class_independent_iu cat (pages st) = Ok v /\ unit_value v.
Proof.
  intros Hrun Hne Hcl.
  assert (HF : Forall (fun p => exists s, page_category cat p = Ok s
                                          /\ 0 <= cat_intersections s <= cat_unions s)
                      (pages st)).
  { apply (foldM_pages_inv _ lines_idx regions_idx threshold ds_loader)
      with (st := {| pages := []; batches := Z.of_nat (length ds_loader) |});
      [| exact Hrun | constructor].
    intros b p Hb Hp.
    destruct (page_stats_Ok _ _ _ _ _ Hp)
      as (pred & y & _ & _ & _ & _ & _ & _ & _ & _ & Hbl & Hrg & _).
    unfold page_category.
    destruct cat; cbn [category_idx] in Hcl;
      [destruct (category_stats_bounds _ _ _ _ Hbl Hcl) as (s & -> & Hs)
      | destruct (category_stats_bounds _ _ _ _ Hrg Hcl) as (s & -> & Hs)];
      exists s; auto. }
  assert (HF' : Forall (fun p => exists s, page_category cat p = Ok s) (pages st)).
  { eapply Forall_impl; [| exact HF]. intros p (s & Hs & _). eauto. }
  unfold class_independent_iu.
  rewrite !sum_category_Ok by assumption. cbn [bind].
  eexists. split; [reflexivity |]. apply iu_unit. split.
  - apply zsum_nonneg. apply Forall_forall. intros z Hz.
    apply in_map_iff in Hz. destruct Hz as (p & <- & Hp).
    rewrite Forall_forall in HF. destruct (HF p Hp) as (s & -> & Hs). lia.
  - apply zsum_le. intros p Hp.
    rewrite Forall_forall in HF. destruct (HF p Hp) as (s & -> & Hs). lia.
Qed.

(** * The theorems at concrete inputs *)

Lemma two_class_page_wf : Forall (wf_batch 2) [two_class_page].
Proof.
  constructor; [| constructor].
  intros pred H. injection H as <-. split; reflexivity.
Qed.






Lemma C2_overlap_pairwise_witness :
  let classes := [0; 1; 2]%nat in
  let y := three_class_y in
  let pred := three_class_pred in
  (1 < length classes)%nat
  /\ NoDup classes
  /\ (forall c, In c classes -> (c < length y)%nat /\ (c < length pred)%nat)
  /\ exists s conf,
      category_stats classes y pred = Ok (Some s)
      /\ cat_confusion s = Some conf
      /\ _compute_iou_overlap classes y pred = Ok conf
      /\ length (conf_intersections conf) = length classes
      /\ length (conf_unions conf) = length classes
      /\ forall i ci,
          nth_error classes i = Some ci ->
          exists row_i row_u,
            nth_error (conf_intersections conf) i = Some row_i
            /\ nth_error (conf_unions conf) i = Some row_u
            /\ length row_i = (length classes - 1)%nat
            /\ length row_u = (length classes - 1)%nat
            /\ forall j cj,
                nth_error (others classes ci) j = Some cj ->
                In cj classes /\ cj <> ci
                /\ nth_error row_i j = Some (pair_count andb y pred ci cj)
                /\ nth_error row_u j = Some (pair_count orb y pred ci cj).
Proof.
  intros classes y pred.
  assert (Hk : (1 < length classes)%nat) by (simpl; lia).
  assert (Hnd : NoDup classes).
  { repeat constructor; simpl; intuition lia. }
  assert (Hr : forall c, In c classes -> (c < length y)%nat /\ (c < length pred)%nat).
  { simpl. intros c Hc. lia. }
  split; [exact Hk |]. split; [exact Hnd |]. split; [exact Hr |].
  exact (C2_overlap_pairwise classes y pred Hk Hnd Hr).
Defined.


(** * Further properties of segtest *)

(** ** The counter and the empty evaluation set *)

(** X5.  When the loop returns, the counter [batches] is the number of
    accumulated pages. *)
Theorem run_loop_batches_count (lines_idx regions_idx : list nat) (threshold : Q)
    (ds_loader : list batch) (st : loop_state) :
  run_loop lines_idx regions_idx threshold ds_loader = Ok st ->
  batches st = Z.of_nat (length (pages st)).
Proof.
  unfold run_loop. rewrite foldM_skip. intros H.
  destruct (foldM_loaded _ _ _ _ _ _ (loaded_not_skipped _ _ _ ds_loader) H)
    as (ps & Hps & Hpages & Hbatches).
  cbn [pages batches app] in Hpages, Hbatches.
  rewrite Hpages, Hbatches. pose proof (mapM_Ok_length _ _ _ Hps). lia.
Qed.

Lemma foldM_all_skipped li ri t (bs : list batch) :
  Forall (fun b => skipped li ri t b = true) bs ->
  forall ps n,
    foldM (loop_step li ri t) bs {| pages := ps; batches := n |}
    = Ok {| pages := ps; batches := n - Z.of_nat (length bs) |}.
Proof.
  induction 1 as [| b bs Hb _ IH]; intros ps n.
  - simpl. now replace (n - 0) with n by lia.
  - cbn [foldM]. rewrite (loop_step_skipped _ _ _ _ _ Hb). cbn [bind pages batches].
    rewrite IH. do 2 f_equal. cbn [length]. lia.
Qed.

(** X6.  When every batch of a non-empty data loader is skipped, the loop
    returns with no page and the counter at zero, and the command then
    raises [RuntimeError] ([torch.stack] on an empty list) instead of
    printing metrics. *)
Theorem segtest_all_skipped (class_mapping : class_mapping_t) (bl rg : dict string nat)
    (threshold : Q) (ds_loader : list batch) :
  dict_get String.eqb "baselines"%string class_mapping = Ok bl ->
  dict_get String.eqb "regions"%string class_mapping = Ok rg ->
  ds_loader <> [] ->
  Forall (fun b => skipped (map snd bl) (map snd rg) threshold b = true) ds_loader ->
  run_loop (map snd bl) (map snd rg) threshold ds_loader
  = Ok {| pages := []; batches := 0 |}
  /\ segtest class_mapping threshold ds_loader = Raise RuntimeError.
Proof.
  intros Hbl Hrg Hne Hall.
  assert (Hrun : run_loop (map snd bl) (map snd rg) threshold ds_loader
                 = Ok {| pages := []; batches := 0 |}).
  { unfold run_loop. rewrite foldM_all_skipped by assumption.
    do 2 f_equal. lia. }
  split; [exact Hrun |].
  unfold segtest. rewrite Hbl, Hrg. cbn [bind].
  destruct ds_loader as [| b ds]; [congruence |].
  cbn [length Nat.eqb]. rewrite Hrun. reflexivity.
Qed.


(** ** A category of regions with a single class *)

Lemma category_stats_single (r : nat) (y pred : tensor2 bool) (res : option cat_stats) :
  category_stats [r] y pred = Ok res ->
  exists s, res = Some s /\ cat_confusion s = None.
Proof.
  unfold category_stats. intros H.
  apply bind_Ok in H. destruct H as (y_rows & _ & H).
  apply bind_Ok in H. destruct H as (pred_rows & _ & H).
  cbn [length Nat.ltb Nat.leb bind] in H.
  injection H as <-. eexists. split; reflexivity.
Qed.

Lemma mapM_head_raises {A B : Type} (f : A -> result B) (a : A) (l : list A) (e : exn) :
  f a = Raise e -> mapM f (a :: l) = Raise e.
Proof.
  intros H. cbn [mapM]. now rewrite H.
Qed.

(** X7.  With exactly one region class the command never returns: once the
    loop, the metrics and the part for the baselines have gone through,
    the table of the regions, printed under [if len(regions_idx):], looks
    up the key ["confusion"] that the loop only stores for two classes or
    more, and raises [KeyError]. *)
Theorem segtest_single_region_class (class_mapping : class_mapping_t)
    (bl : dict string nat) (name : string) (r : nat)
    (threshold : Q) (ds_loader : list batch) :
  dict_get String.eqb "baselines"%string class_mapping = Ok bl ->
  dict_get String.eqb "regions"%string class_mapping = Ok [(name, r)] ->
  (exists e, segtest class_mapping threshold ds_loader = Raise e)
  /\ forall st m b,
      run_loop (map snd bl) [r] threshold ds_loader = Ok st ->
      global_metrics (pages st) = Ok m ->
      category_report (fun n => (1 <? n)%nat) (inv_class_names_of class_mapping)
                      (pages st) (map snd bl) Baselines = Ok b ->
      segtest class_mapping threshold ds_loader = Raise KeyError.
Proof.
  intros Hbl Hrg.
  assert (Hkey : forall st m,
             run_loop (map snd bl) [r] threshold ds_loader = Ok st ->
             global_metrics (pages st) = Ok m ->
             category_report (fun n => negb (n =? 0)%nat) (inv_class_names_of class_mapping)
                             (pages st) [r] Regions = Raise KeyError).
  { intros st m Hrun Hm.
    assert (HF : Forall (fun p => exists s, regions p = Some s /\ cat_confusion s = None)
                        (pages st)).
    { apply (foldM_pages_inv _ (map snd bl) [r] threshold ds_loader)
        with (st := {| pages := []; batches := Z.of_nat (length ds_loader) |});
        [| exact Hrun | constructor].
      intros b0 p _ Hp.
      destruct (page_stats_Ok _ _ _ _ _ Hp)
        as (pred & y & _ & _ & _ & _ & _ & _ & _ & _ & _ & Hr & _).
      now apply category_stats_single in Hr. }
    destruct (pages st) as [| p0 ps] eqn:Ep; [discriminate Hm |].
    assert (HF' : Forall (fun p => exists s, page_category Regions p = Ok s) (p0 :: ps)).
    { eapply Forall_impl; [| exact HF]. intros p (s & Hs & _).
      exists s. unfold page_category. now rewrite Hs. }
    unfold category_report, class_independent_iu.
    rewrite !sum_category_Ok by (assumption || discriminate).
    cbn [bind length Nat.eqb negb].
    unfold _compute_overlap_iou, sum_confusion.
    rewrite (mapM_head_raises _ p0 ps KeyError); [reflexivity |].
    inversion HF as [| ? ? (s & Hs & Hc) _]; subst.
    unfold page_confusion, page_category. rewrite Hs. cbn [bind]. now rewrite Hc. }
  assert (Hseg : segtest class_mapping threshold ds_loader
                 = (if (length ds_loader =? 0)%nat then Raise UsageError else
                    st <- run_loop (map snd bl) [r] threshold ds_loader ;;
                    m <- global_metrics (pages st) ;;
                    b <- category_report (fun n => (1 <? n)%nat)
                           (inv_class_names_of class_mapping)
                           (pages st) (map snd bl) Baselines ;;
                    r0 <- category_report (fun n => negb (n =? 0)%nat)
                            (inv_class_names_of class_mapping)
                            (pages st) [r] Regions ;;
                    Ok {| report_batches := batches st;
                          report_metrics := m;
                          report_baselines := b;
                          report_regions := r0 |})).
  { unfold segtest. rewrite Hbl, Hrg. reflexivity. }
  split.
  - rewrite Hseg. destruct (length ds_loader =? 0)%nat; [eauto |].
    destruct (run_loop (map snd bl) [r] threshold ds_loader) as [st | e] eqn:Hrun;
      cbn [bind]; [| eauto].
    destruct (global_metrics (pages st)) as [m | e] eqn:Hm; cbn [bind]; [| eauto].
    destruct (category_report _ _ _ (map snd bl) Baselines) as [b | e];
      cbn [bind]; [| eauto].
    rewrite (Hkey st m eq_refl Hm). cbn [bind]. eauto.
  - intros st m b Hrun Hm Hb. rewrite Hseg.
    destruct ds_loader as [| b0 ds].
    + cbv in Hrun. injection Hrun as <-. discriminate Hm.
    + cbn [length Nat.eqb]. rewrite Hrun. cbn [bind]. rewrite Hm. cbn [bind].
      rewrite Hb. cbn [bind]. rewrite (Hkey st m Hrun Hm). reflexivity.
Qed.

(** ** The class names by index *)

Lemma all_indices_keys (class_mapping : class_mapping_t) :
  map fst (flat_map (fun cs => map (fun kv => (snd kv, fst kv)) (snd cs)) class_mapping)
  = all_indices class_mapping.
Proof.
  unfold all_indices. induction class_mapping as [| cs cm IH]; [reflexivity |].
  cbn [flat_map]. rewrite !map_app, IH. f_equal.
  rewrite map_map. reflexivity.
Qed.

(** X8.  When no two classes of the mapping share an index, [inv_class_names]
    gives for the index of every class of every category the name of
    that class. *)
Theorem inv_class_names_lookup (class_mapping : class_mapping_t)
    (cat : string) (subcategory : dict string nat) (key : string) (val : nat) :
  NoDup (all_indices class_mapping) ->
  In (cat, subcategory) class_mapping ->
  In (key, val) subcategory ->
  dict_get Nat.eqb val (inv_class_names_of class_mapping) = Ok key.
Proof.
  intros Hnd Hcat Hkey. unfold inv_class_names_of.
  apply (dict_get_update_In Nat.eqb Nat.eqb_eq).
  - now rewrite all_indices_keys.
  - apply in_flat_map. exists (cat, subcategory). split; [assumption |].
    cbn [snd]. apply in_map_iff. exists (key, val). split; [reflexivity | assumption].
Qed.

(** ** Agreement, intersection and union *)

Lemma count_eqb (a b : list bool) :
  length a = length b ->
  count (zip_with Bool.eqb a b)
  = Z.of_nat (length a) - count (zip_with orb a b) + count (zip_with andb a b).
Proof.
  revert b. induction a as [| x a IH]; intros [| y b] H; try discriminate.
  - reflexivity.
  - rewrite !zip_with_cons. simpl in H. injection H as H. specialize (IH b H).
    destruct x, y; cbn [count fold_right Bool.eqb orb andb length];
      fold (count (zip_with Bool.eqb a b)); fold (count (zip_with orb a b));
      fold (count (zip_with andb a b)); lia.
Qed.

Lemma pred_row_length (pred : tensor3 Q) (t : Q) (c : nat) :
  Forall (fun g => length g = size1 pred
                   /\ Forall (fun r => length r = size2 pred) g) pred ->
  (c < length pred)%nat ->
  length (nth c (view (gt pred t)) []) = (size1 pred * size2 pred)%nat.
Proof.
  intros Hrect Hc. unfold view, gt. rewrite !map_map.
  rewrite (map_nth_lt _ pred [] [] c Hc).
  rewrite Forall_forall in Hrect.
  destruct (Hrect (nth c pred []) (nth_In _ _ Hc)) as [H1 H2].
  rewrite (concat_length_rect (size2 pred)).
  - now rewrite length_map, H1.
  - apply Forall_forall. intros r Hr. apply in_map_iff in Hr.
    destruct Hr as (r' & <- & Hr'). rewrite length_map.
    rewrite Forall_forall in H2. now apply H2.
Qed.

(** X9.  On every accumulated page and for every class, the pixels on which
    prediction and target agree are the pixels outside their union plus
    the pixels of their intersection:
    [corrects[c] = all_n - unions[c] + intersections[c]]. *)
Theorem page_corrects_identity (C : nat) (lines_idx regions_idx : list nat)
    (threshold : Q) (b : batch) (p : page) :
  wf_batch C b ->
  rect_batch b ->
  page_stats lines_idx regions_idx threshold b = Ok p ->
  forall c, (c < C)%nat ->
    nth c (corrects p) 0
    = all_n p - nth c (unions p) 0 + nth c (intersections p) 0.
Proof.
  intros Hwf Hrect H c Hc.
  destruct (page_stats_Ok _ _ _ _ _ H)
    as (pred & y & Hpred & Hy & i & u & e & Hi & Hu & He & _ & _ & Ei & Eu & Ec & _ & En).
  destruct (Hwf pred Hpred) as [HCp HCy].
  destruct (interpolate_Ok _ _ _ _ Hy) as (-> & _ & _ & Hne).
  set (yb := view (to_bool (map (resize_grid (size1 pred) (size2 pred)) (target b)))) in *.
  set (pb := view (gt pred threshold)) in *.
  assert (Lyb : length yb = C).
  { unfold yb, view, to_bool. now rewrite !length_map. }
  assert (Lpb : length pb = C).
  { unfold pb, view, gt. now rewrite !length_map. }
  rewrite broadcast_same in Hi, Hu, He by congruence.
  injection Hi as <-. injection Hu as <-. injection He as <-.
  rewrite Ei, Eu, Ec, En, !sum_dim1_nth, !zip_with_nth_rows.
  assert (Ly : length (nth c yb []) = (size1 pred * size2 pred)%nat).
  { unfold yb. apply target_row_length. lia. }
  assert (Lp : length (nth c pb []) = (size1 pred * size2 pred)%nat).
  { unfold pb. apply pred_row_length; [now apply Hrect | lia]. }
  assert (Hs : size1 yb = (size1 pred * size2 pred)%nat)
    by (unfold yb; now apply size1_target).
  rewrite count_eqb by congruence. rewrite Hs, Ly. reflexivity.
Qed.

(** ** A perfect prediction *)








(** * Strings *)

Lemma obind_Return {A B : Type} (r : outcome A) (f : A -> outcome B) (b : B) :
  obind r f = Return b -> exists a, r = Return a /\ f a = Return b.
Proof.
  destruct r as [a | e]; simpl; intros H; [exists a; auto | discriminate].
Qed.

Lemma split_nonempty (sep : ascii) (s : string) : split sep s <> [].
Proof.
  destruct s as [| c s]; simpl; [discriminate |].
  destruct (Ascii.eqb c sep); [discriminate |].
  destruct (split sep s); discriminate.
Qed.

Lemma split_length (sep : ascii) (s : string) :
  length (split sep s) = S (occurrences sep s).
Proof.
  induction s as [| c s IH]; simpl; [reflexivity |].
  destruct (Ascii.eqb c sep); simpl; [now rewrite IH |].
  destruct (split sep s) eqn:E; [now apply split_nonempty in E |].
  simpl in *. exact IH.
Qed.

Lemma occurrences_app (c : ascii) (a b : string) :
  occurrences c (a ++ b) = (occurrences c a + occurrences c b)%nat.
Proof.
  induction a as [| x a IH]; simpl; [reflexivity |].
  destruct (Ascii.eqb x c); simpl; now rewrite IH.
Qed.

Lemma split_none (sep : ascii) (s : string) :
  occurrences sep s = 0%nat -> split sep s = [s].
Proof.
  induction s as [| c s IH]; simpl; [reflexivity |].
  destruct (Ascii.eqb c sep); [discriminate |].
  intros H. now rewrite (IH H).
Qed.

Lemma split_app_sep (sep : ascii) (a b : string) :
  occurrences sep a = 0%nat ->
  split sep (a ++ String sep b) = a :: split sep b.
Proof.
  induction a as [| c a IH]; simpl.
  - intros _. now rewrite Ascii.eqb_refl.
  - destruct (Ascii.eqb c sep); [discriminate |].
    intros H. now rewrite (IH H).
Qed.

Lemma split_join (sep : ascii) (parts : list string) :
  parts <> [] ->
  Forall (fun p => occurrences sep p = 0%nat) parts ->
  split sep (join (String sep EmptyString) parts) = parts.
Proof.
  intros Hne HF. induction HF as [| p parts Hp HF IH]; [congruence |].
  destruct parts as [| q parts].
  - simpl. now apply split_none.
  - change (join (String sep EmptyString) (p :: q :: parts))
      with (p ++ String sep (join (String sep EmptyString) (q :: parts)))%string.
    rewrite split_app_sep by assumption. f_equal. apply IH. discriminate.
Qed.

Lemma uint_chars (c : ascii) (d : Decimal.uint) :
  In c (list_ascii_of_string "0123456789") \/ occurrences c (NilEmpty.string_of_uint d) = 0%nat.
Proof.
  destruct (in_dec ascii_dec c (list_ascii_of_string "0123456789")) as [Hin | Hnot];
    [now left | right].
  induction d; cbn [occurrences NilEmpty.string_of_uint]; try reflexivity;
    match goal with
    | |- (if Ascii.eqb ?a c then _ else _) = _ =>
        destruct (Ascii.eqb_spec a c) as [<- | _]; [| assumption]
    end;
    exfalso; apply Hnot; simpl; tauto.
Qed.

(** [str(z)] is made of digits and a minus sign. *)
Lemma str_chars (c : ascii) (z : Z) :
  ~ In c (list_ascii_of_string "0123456789-") -> occurrences c (str z) = 0%nat.
Proof.
  intros Hnot.
  assert (Hd : ~ In c (list_ascii_of_string "0123456789")).
  { intros H. apply Hnot. simpl in *. tauto. }
  assert (Hu : forall d, occurrences c (NilZero.string_of_uint d) = 0%nat).
  { intros d. unfold NilZero.string_of_uint.
    destruct (uint_chars c d) as [H | H]; [contradiction |].
    destruct d; try exact H.
    cbn [occurrences]. destruct (Ascii.eqb_spec "0" c) as [<- | _]; [| reflexivity].
    exfalso. apply Hd. simpl. tauto. }
  unfold str.
  destruct (Z.to_int z) as [d | d]; cbn [NilZero.string_of_int occurrences]; [apply Hu |].
  destruct (Ascii.eqb_spec "-" c) as [<- | _]; [| apply Hu].
  exfalso. apply Hnot. simpl. tauto.
Qed.

Lemma str_no_space (z : Z) : occurrences " " (str z) = 0%nat.
Proof.
  apply str_chars. simpl. intros H.
  repeat (destruct H as [H | H]; [discriminate H |]). exact H.
Qed.

Lemma str_no_comma (z : Z) : occurrences "," (str z) = 0%nat.
Proof.
  apply str_chars. simpl. intros H.
  repeat (destruct H as [H | H]; [discriminate H |]). exact H.
Qed.

Lemma decimal_int_str (z : Z) : decimal_int (str z) = Some z.
Proof.
  unfold decimal_int, str.
  rewrite NilZero.isi.
  - simpl. now rewrite DecimalZ.of_to.
  - destruct z; discriminate || (simpl; intros H; injection H as H;
      revert H; apply DecimalPos.Unsigned.to_uint_nonnil).
  - destruct z; discriminate || (simpl; intros H; injection H as H;
      revert H; apply DecimalPos.Unsigned.to_uint_nonnil).
Qed.

(** * ketos.py: _validate_merging *)

Lemma merge_step_cases (d : dict string string) (m : string) :
  (occurrences ":" m = 1%nat ->
   exists k v, split ":" m = [k; v]
               /\ merge_step d m = Return (dict_set String.eqb v k d))
  /\ (occurrences ":" m <> 1%nat -> merge_step d m = Throw BadParameter).
Proof.
  pose proof (split_length ":" m) as Hlen. unfold merge_step.
  destruct (split ":" m) as [| k [| v [| x l]]]; simpl in Hlen; split; intros H;
    try lia; try reflexivity.
  exists k, v. split; reflexivity.
Qed.

Lemma ofoldM_app {A S : Type} (f : S -> A -> outcome S) (l1 l2 : list A) (s : S) :
  ofoldM f (l1 ++ l2) s = (s' <-- ofoldM f l1 s ;; ofoldM f l2 s').
Proof.
  revert s. induction l1 as [| a l1 IH]; intros s; simpl; [reflexivity |].
  destruct (f s a); simpl; [apply IH | reflexivity].
Qed.

Lemma merge_fold_rejects (value : list string) :
  forall d,
    (exists d', ofoldM merge_step value d = Return d')
    \/ ofoldM merge_step value d = Throw BadParameter.
Proof.
  induction value as [| m value IH]; intros d; simpl; [eauto |].
  destruct (Nat.eq_dec (occurrences ":" m) 1) as [H | H].
  - destruct (proj1 (merge_step_cases d m) H) as (k & v & _ & ->). simpl. apply IH.
  - rewrite (proj2 (merge_step_cases d m) H). simpl. now right.
Qed.

Lemma merge_fold_iff (value : list string) :
  forall d,
    ofoldM merge_step value d = Throw BadParameter
    <-> Exists (fun m => occurrences ":" m <> 1%nat) value.
Proof.
  induction value as [| m value IH]; intros d; simpl.
  - split; [discriminate | intros H; inversion H].
  - destruct (Nat.eq_dec (occurrences ":" m) 1) as [H | H].
    + destruct (proj1 (merge_step_cases d m) H) as (k & v & _ & ->). simpl.
      rewrite IH. split; [now right |].
      intros HE. inversion HE; [contradiction | assumption].
    + rewrite (proj2 (merge_step_cases d m) H). simpl.
      split; [now left | reflexivity].
Qed.

(** X11.  [_validate_merging] raises [BadParameter] exactly when one of the
    mappings does not hold exactly one colon; it raises nothing else. *)
Theorem _validate_merging_rejects (value : list string) :
  (_validate_merging value = Throw BadParameter
   <-> Exists (fun m => occurrences ":" m <> 1%nat) value)
  /\ forall e, _validate_merging value = Throw e -> e = BadParameter.
Proof.
  unfold _validate_merging. destruct value as [| m value].
  - split; [split; [discriminate | intros H; inversion H] | discriminate].
  - split.
    + rewrite <- (merge_fold_iff (m :: value) []).
      destruct (ofoldM merge_step (m :: value) []); simpl; split;
        intros H; try discriminate; injection H as ->; reflexivity.
    + intros e.
      destruct (merge_fold_rejects (m :: value) []) as [(d' & ->) | ->]; simpl;
        [discriminate | intros H; now injection H].
Qed.

Lemma merge_fold_keeps (post : list string) (v : string) :
  forall d0 d,
    ofoldM merge_step post d0 = Return d ->
    Forall (fun m' => forall k', split ":" m' <> [k'; v]) post ->
    dict_get String.eqb v d = dict_get String.eqb v d0.
Proof.
  induction post as [| m post IH]; intros d0 d H HF; simpl in H.
  - now injection H as <-.
  - inversion HF as [| ? ? Hm HF']; subst.
    apply obind_Return in H. destruct H as (d1 & H1 & H).
    rewrite (IH d1 d H HF').
    unfold merge_step in H1.
    destruct (split ":" m) as [| k' [| v' [| x l]]] eqn:E; try discriminate.
    injection H1 as <-.
    apply (dict_get_set_other String.eqb string_eqb_eq).
    intros ->. now apply (Hm k').
Qed.

(** X12.  When [_validate_merging] returns a dict, a mapping [k:v] of the
    input is found under [v] with the value [k], unless a later mapping
    names the same [v]: the source is the key, the target the value, and
    the last mapping of a source wins. *)
Theorem _validate_merging_lookup (value pre post : list string) (m k v : string)
    (d : dict string string) :
  _validate_merging value = Return (Some d) ->
  value = pre ++ m :: post ->
  split ":" m = [k; v] ->
  Forall (fun m' => forall k', split ":" m' <> [k'; v]) post ->
  dict_get String.eqb v d = Ok k.
Proof.
  intros H -> Hm Hpost. unfold _validate_merging in H.
  destruct (pre ++ m :: post) as [| m0 value] eqn:E;
    [now destruct pre | rewrite <- E in H; clear E].
  apply obind_Return in H. destruct H as (d' & Hd & H). injection H as <-.
  rewrite ofoldM_app in Hd. apply obind_Return in Hd.
  destruct Hd as (d1 & _ & Hd). simpl in Hd.
  apply obind_Return in Hd. destruct Hd as (d2 & H2 & Hd).
  rewrite (merge_fold_keeps post v d2 d' Hd Hpost).
  unfold merge_step in H2. rewrite Hm in H2. injection H2 as <-.
  apply (dict_get_set_same String.eqb string_eqb_eq).
Qed.

(** * ketos.py, segtrain and train: the validation frequency *)

Lemma has_fraction_false (q : Q) :
  has_fraction q = false <-> exists z, (q == inject_Z z)%Q.
Proof.
  unfold has_fraction. rewrite negb_false_iff. split.
  - intros H. apply Qeq_bool_eq in H. exists (Qfloor q). lra.
  - intros (z & Hz). apply Qeq_eq_bool.
    rewrite (Qfloor_comp _ _ Hz), Qfloor_Z. lra.
Qed.

Lemma Qle_bool_false (a b : Q) : Qle_bool a b = false <-> (b < a)%Q.
Proof.
  split.
  - intros H. apply Qnot_le_lt. intros Hle. apply Qle_bool_iff in Hle. congruence.
  - intros H. destruct (Qle_bool a b) eqn:E; [| reflexivity].
    apply Qle_bool_iff in E. apply Qlt_not_le in H. contradiction.
Qed.

Lemma unit_interval_bool (q : Q) :
  Qle_bool 0 q && Qle_bool q 1 = true <-> (0 <= q <= 1)%Q.
Proof.
  rewrite andb_true_iff, !Qle_bool_iff. tauto.
Qed.

Lemma check_freq_throws (freq : Q) :
  check_freq freq = Throw BadOptionUsage
  <-> ~ (0 <= freq <= 1)%Q /\ ~ exists z, (freq == inject_Z z)%Q.
Proof.
  unfold check_freq.
  destruct (Qle_bool 0 freq && Qle_bool freq 1) eqn:Eu;
    destruct (has_fraction freq) eqn:Ef; cbn [negb andb].
  - apply unit_interval_bool in Eu. split; [discriminate | tauto].
  - apply unit_interval_bool in Eu. split; [discriminate | tauto].
  - split; [intros _ | reflexivity]. split.
    + intros H. apply unit_interval_bool in H. congruence.
    + intros H. apply has_fraction_false in H. congruence.
  - apply has_fraction_false in Ef. split; [discriminate | tauto].
Qed.

Lemma check_freq_returns (freq : Q) :
  check_freq freq = Return tt
  <-> (0 <= freq <= 1)%Q \/ exists z, (freq == inject_Z z)%Q.
Proof.
  unfold check_freq.
  destruct (Qle_bool 0 freq && Qle_bool freq 1) eqn:Eu;
    destruct (has_fraction freq) eqn:Ef; cbn [negb andb].
  - apply unit_interval_bool in Eu. tauto.
  - apply unit_interval_bool in Eu. tauto.
  - split; [discriminate |]. intros [H | H].
    + apply unit_interval_bool in H. congruence.
    + apply has_fraction_false in H. congruence.
  - apply has_fraction_false in Ef. tauto.
Qed.

(** X13.  The frequency is refused exactly when it is neither in the unit
    interval nor a whole number.  A frequency above one reaches the
    trainer as a number of epochs, a whole number of at least two equal
    to the frequency; any other accepted frequency reaches it unchanged as
    validation interval, and this includes the negative whole numbers. *)
Theorem freq_to_val_check_spec (freq : Q) :
  (freq_to_val_check freq = Throw BadOptionUsage
   <-> ~ (0 <= freq <= 1)%Q /\ ~ exists z, (freq == inject_Z z)%Q)
  /\ (forall n, freq_to_val_check freq = Return (check_val_every_n_epoch n) ->
                (freq == inject_Z n)%Q /\ 2 <= n)
  /\ (forall q, freq_to_val_check freq = Return (val_check_interval q) ->
                q = freq
                /\ ((0 <= freq <= 1)%Q \/ exists z, z < 0 /\ (freq == inject_Z z)%Q))
  /\ ((exists z, z < 0 /\ (freq == inject_Z z)%Q) ->
      freq_to_val_check freq = Return (val_check_interval freq)).
Proof.
  unfold freq_to_val_check.
  split; [| split; [| split]].
  - rewrite <- check_freq_throws.
    destruct (check_freq freq) as [[] | e]; cbn [obind]; split;
      intros H; try discriminate; injection H as ->; reflexivity.
  - intros n H. apply obind_Return in H. destruct H as ([] & Hc & H).
    apply check_freq_returns in Hc. injection H as H. unfold val_check_of in H.
    destruct (Qle_bool freq 1) eqn:E1; cbn [negb] in H; [discriminate |].
    injection H as <-. apply Qle_bool_false in E1.
    assert (E0 : Qle_bool 0 freq = true) by (apply Qle_bool_iff; lra).
    unfold int_of_float. rewrite E0.
    destruct Hc as [Hc | (z & Hz)]; [lra |].
    rewrite (Qfloor_comp _ _ Hz), Qfloor_Z. split; [exact Hz |].
    rewrite Hz in E1. change 1%Q with (inject_Z 1) in E1.
    rewrite <- Zlt_Qlt in E1. lia.
  - intros q H. apply obind_Return in H. destruct H as ([] & Hc & H).
    apply check_freq_returns in Hc. injection H as H. unfold val_check_of in H.
    destruct (Qle_bool freq 1) eqn:E1; cbn [negb] in H; [| discriminate].
    injection H as <-. split; [reflexivity |].
    apply Qle_bool_iff in E1.
    destruct Hc as [Hc | (z & Hz)]; [now left |].
    destruct (Z_lt_le_dec z 0) as [Hneg | Hpos]; [right; eauto | left].
    split; [| exact E1]. rewrite Hz. now apply inject_Z_nonneg.
  - intros (z & Hneg & Hz).
    assert (Hc : check_freq freq = Return tt) by (apply check_freq_returns; eauto).
    rewrite Hc. cbn [obind]. unfold val_check_of.
    assert (E1 : Qle_bool freq 1 = true).
    { apply Qle_bool_iff. rewrite Hz. change 1%Q with (inject_Z 1).
      rewrite <- Zle_Qle. lia. }
    now rewrite E1.
Qed.

(** * repolygonize.py: _parse_page_coords *)

Lemma point_eqb_eq (p q : Z * Z) : point_eqb p q = true <-> p = q.
Proof.
  unfold point_eqb. destruct p as [a b], q as [c d]. simpl.
  rewrite andb_true_iff, !Z.eqb_eq. split; [intros [-> ->]; reflexivity |].
  intros H. injection H as -> ->. auto.
Qed.

Lemma groupby_keys_head (p : Z * Z) (pts : list (Z * Z)) :
  exists t, groupby_keys (p :: pts) = p :: t.
Proof.
  revert p. induction pts as [| q pts IH]; intros p.
  - exists []. reflexivity.
  - cbn [groupby_keys]. destruct (point_eqb p q) eqn:E.
    + apply point_eqb_eq in E. subst q. apply IH.
    + eexists. reflexivity.
Qed.

Lemma groupby_keys_distinct (pts : list (Z * Z)) :
  distinct_neighbours (groupby_keys pts).
Proof.
  induction pts as [| p pts IH]; [exact I |].
  destruct pts as [| q pts]; [exact I |].
  change (groupby_keys (p :: q :: pts))
    with (if point_eqb p q then groupby_keys (q :: pts) else p :: groupby_keys (q :: pts)).
  destruct (point_eqb p q) eqn:E; [exact IH |].
  destruct (groupby_keys_head q pts) as (t & Ht). rewrite Ht in *.
  split; [| exact IH].
  intros ->. assert (point_eqb q q = true) by now apply point_eqb_eq. congruence.
Qed.

Lemma distinct_neighbours_nth (l : list (Z * Z)) :
  distinct_neighbours l ->
  forall i p q, nth_error l i = Some p -> nth_error l (S i) = Some q -> p <> q.
Proof.
  induction l as [| a l IH]; intros H i p q Hp Hq.
  - destruct i; discriminate.
  - destruct l as [| b l]; [destruct i; discriminate |].
    destruct H as [Hab H]. destruct i as [| i].
    + simpl in Hp, Hq. congruence.
    + apply (IH H i p q); assumption.
Qed.

(** X14.  Whatever [_parse_page_coords] returns has no two equal points next
    to each other. *)
Theorem _parse_page_coords_no_repeat (ops : builtins) (coords : string)
    (pts : list (Z * Z)) :
  _parse_page_coords ops coords = Return pts ->
  forall i p q, nth_error pts i = Some p -> nth_error pts (S i) = Some q -> p <> q.
Proof.
  unfold _parse_page_coords. intros H.
  apply obind_Return in H. destruct H as (points & _ & H). injection H as <-.
  apply distinct_neighbours_nth, groupby_keys_distinct.
Qed.

Lemma omapM_pure {A B : Type} (f : A -> outcome B) (g : A -> B) (l : list A) :
  (forall a, In a l -> f a = Return (g a)) -> omapM f l = Return (map g l).
Proof.
  induction l as [| a l IH]; intros H; simpl; [reflexivity |].
  rewrite (H a (or_introl eq_refl)). simpl.
  rewrite IH by (intros; apply H; now right). reflexivity.
Qed.

Lemma evens_odds_pairs (pol : list (Z * Z)) :
  combine (evens (flat_map (fun pt => [fst pt; snd pt]) pol))
          (odds (flat_map (fun pt => [fst pt; snd pt]) pol)) = pol.
Proof.
  induction pol as [| [x y] pol IH]; [reflexivity |].
  cbn [flat_map app fst snd evens odds combine].
  f_equal. destruct pol as [| [x' y'] pol']; [reflexivity |]. exact IH.
Qed.

Lemma parse_coordinates (ops : builtins) (pol : list (Z * Z)) :
  (forall z, py_int ops (str z) = Some z) ->
  omapM (int_or_raise ops) (flat_map (fun pt => [str (fst pt); str (snd pt)]) pol)
  = Return (flat_map (fun pt => [fst pt; snd pt]) pol).
Proof.
  intros Hint.
  replace (flat_map (fun pt : Z * Z => [str (fst pt); str (snd pt)]) pol)
    with (map str (flat_map (fun pt => [fst pt; snd pt]) pol)).
  - rewrite (omapM_pure _ (fun s => match py_int ops s with Some z => z | None => 0 end)).
    + rewrite map_map. f_equal.
      rewrite <- (map_id (flat_map (fun pt : Z * Z => [fst pt; snd pt]) pol)) at 2.
      apply map_ext. intros z. now rewrite Hint.
    + intros s Hs. apply in_map_iff in Hs. destruct Hs as (z & <- & _).
      unfold int_or_raise. now rewrite Hint.
  - induction pol as [| pt pol IH]; [reflexivity |].
    cbn [flat_map]. rewrite map_app, IH. reflexivity.
Qed.

Lemma flat_map_singletons {A : Type} (f : A -> list A) (l : list A) :
  (forall a, In a l -> f a = [a]) -> flat_map f l = l.
Proof.
  induction l as [| a l IH]; intros H; [reflexivity |].
  cbn [flat_map]. rewrite (H a (or_introl eq_refl)).
  rewrite IH by (intros; apply H; now right). reflexivity.
Qed.

(** X15.  What [_repl_page] writes for a polygon with at least one point,
    [_parse_page_coords] reads back as the polygon with runs of equal
    points reduced to one point; it reads the same from what
    [_repl_alto] writes. *)
Theorem parse_written_points (ops : builtins) (pol : polygon) :
  (forall z, py_int ops (str z) = Some z) ->
  pol <> [] ->
  _parse_page_coords ops (page_points pol) = Return (groupby_keys pol)
  /\ _parse_page_coords ops (alto_points pol) = Return (groupby_keys pol).
Proof.
  intros Hint Hne. unfold _parse_page_coords. split.
  - unfold page_points.
    rewrite (split_join " ").
    + assert (Hflat : flat_map (split ",")
                        (map (fun pt => join "," [str (fst pt); str (snd pt)]) pol)
                      = flat_map (fun pt => [str (fst pt); str (snd pt)]) pol).
      { clear. induction pol as [| pt pol IH]; [reflexivity |].
        cbn [map flat_map]. rewrite IH. f_equal.
        change (join "," [str (fst pt); str (snd pt)])
          with (str (fst pt) ++ String "," (str (snd pt)))%string.
        rewrite split_app_sep by apply str_no_comma.
        now rewrite split_none by apply str_no_comma. }
      rewrite Hflat, (parse_coordinates ops pol Hint). cbn [obind].
      now rewrite evens_odds_pairs.
    + destruct pol; [congruence | discriminate].
    + apply Forall_forall. intros s Hs. apply in_map_iff in Hs.
      destruct Hs as (pt & <- & _).
      change (join "," [str (fst pt); str (snd pt)])
        with (str (fst pt) ++ String "," (str (snd pt)))%string.
      rewrite occurrences_app. cbn [occurrences].
      change (Ascii.eqb "," " ") with false. cbv iota.
      now rewrite !str_no_space.
  - unfold alto_points.
    rewrite (split_join " ").
    + rewrite flat_map_singletons.
      * rewrite (parse_coordinates ops pol Hint). cbn [obind].
        now rewrite evens_odds_pairs.
      * intros s Hs. apply in_flat_map in Hs. destruct Hs as (pt & _ & Hs).
        apply split_none.
        destruct Hs as [<- | [<- | []]]; apply str_no_comma.
    + destruct pol; [congruence | discriminate].
    + apply Forall_forall. intros s Hs. apply in_flat_map in Hs.
      destruct Hs as (pt & _ & [<- | [<- | []]]); apply str_no_space.
Qed.

(** * repolygonize.py: _repl_alto and _repl_page *)

Lemma omapM_Return_length {A B : Type} (f : A -> outcome B) (l : list A) (bs : list B) :
  omapM f l = Return bs -> length bs = length l.
Proof.
  revert bs; induction l as [| a l IH]; simpl; intros bs H.
  - injection H as <-; reflexivity.
  - apply obind_Return in H. destruct H as (b & _ & H).
    apply obind_Return in H. destruct H as (bs' & Hbs & H).
    injection H as <-. simpl. f_equal. auto.
Qed.

Lemma omapM_Return_nth {A B : Type} (f : A -> outcome B) (l : list A) (bs : list B) :
  omapM f l = Return bs ->
  forall i a, nth_error l i = Some a ->
  exists b, f a = Return b /\ nth_error bs i = Some b.
Proof.
  revert bs; induction l as [| a0 l IH]; simpl; intros bs H i a Hi.
  - destruct i; discriminate.
  - apply obind_Return in H. destruct H as (b & Hb & H).
    apply obind_Return in H. destruct H as (bs' & Hbs & H).
    injection H as <-.
    destruct i as [| i]; simpl in *.
    + injection Hi as <-. eauto.
    + eauto.
Qed.

Lemma omapM_total {A B : Type} (f : A -> outcome B) (l : list A) :
  (forall a, In a l -> exists b, f a = Return b) ->
  exists bs, omapM f l = Return bs.
Proof.
  induction l as [| a l IH]; simpl; intros H.
  - eauto.
  - destruct (H a (or_introl eq_refl)) as (b & Hb).
    destruct IH as (bs & Hbs); [intros; apply H; auto |].
    rewrite Hb, Hbs. simpl. eauto.
Qed.

Lemma repl_alto_line_cases (polygons : list (option polygon)) (k : nat) (line : alto_line) :
  (alto_baseline line = None \/ (k < length polygons)%nat ->
   repl_alto_line polygons (k, line) = Return (rewrite_alto_line polygons k line))
  /\ (alto_baseline line <> None -> (length polygons <= k)%nat ->
      repl_alto_line polygons (k, line) = Throw (Builtin IndexError)).
Proof.
  unfold repl_alto_line, rewrite_alto_line.
  destruct (alto_baseline line) as [b |]; split.
  - intros [H | H]; [discriminate |].
    rewrite (nth_error_nth' polygons None H).
    destruct (nth k polygons None); reflexivity.
  - intros _ H. apply nth_error_None in H. now rewrite H.
  - reflexivity.
  - congruence.
Qed.

Lemma repl_alto_total (polygons : list (option polygon)) (doc : list alto_line) :
  (forall k line, nth_error doc k = Some line ->
                  alto_baseline line <> None -> (k < length polygons)%nat) ->
  exists doc', _repl_alto polygons doc = Return doc'.
Proof.
  unfold _repl_alto. intros H. apply omapM_total. intros [k line] Hin.
  apply enumerate_In in Hin. eexists.
  apply (proj1 (repl_alto_line_cases polygons k line)).
  destruct (alto_baseline line) eqn:E; [right | now left].
  apply (H k line Hin). congruence.
Qed.

Lemma repl_alto_nth (polygons : list (option polygon)) (doc doc' : list alto_line) :
  _repl_alto polygons doc = Return doc' ->
  forall k line,
    nth_error doc k = Some line ->
    nth_error doc' k = Some (rewrite_alto_line polygons k line)
    /\ (alto_baseline line <> None -> (k < length polygons)%nat).
Proof.
  unfold _repl_alto. intros H k line Hk.
  destruct (omapM_Return_nth _ _ _ H k (k, line) (enumerate_nth _ _ _ Hk))
    as (b & Hb & Hn).
  destruct (alto_baseline line) eqn:E.
  - destruct (Nat.lt_ge_cases k (length polygons)) as [Hlt | Hge].
    + rewrite (proj1 (repl_alto_line_cases polygons k line) (or_intror Hlt)) in Hb.
      injection Hb as <-. now split.
    + rewrite (proj2 (repl_alto_line_cases polygons k line)) in Hb;
        [discriminate | congruence | assumption].
  - rewrite (proj1 (repl_alto_line_cases polygons k line) (or_introl E)) in Hb.
    injection Hb as <-. split; [assumption | congruence].
Qed.

(** X16.  [_repl_alto] returns exactly when [polygons] has an entry at the
    index of every line that carries a [BASELINE]; it then writes as many
    lines as it read, leaves the lines without [BASELINE] as they are, and
    gives the line of index [k] the points of [polygons[k]], the empty
    string for [None]. *)
Theorem _repl_alto_by_index (polygons : list (option polygon)) (doc : list alto_line) :
  ((exists doc', _repl_alto polygons doc = Return doc')
   <-> forall k line, nth_error doc k = Some line ->
                      alto_baseline line <> None -> (k < length polygons)%nat)
  /\ forall doc',
      _repl_alto polygons doc = Return doc' ->
      length doc' = length doc
      /\ forall k line,
          nth_error doc k = Some line ->
          nth_error doc' k = Some (rewrite_alto_line polygons k line)
          /\ (alto_baseline line = None -> rewrite_alto_line polygons k line = line).
Proof.
  split; [split |].
  - intros (doc' & H) k line Hk. apply (repl_alto_nth polygons doc doc' H k line Hk).
  - apply repl_alto_total.
  - intros doc' H. split.
    + unfold _repl_alto in H.
      now rewrite (omapM_Return_length _ _ _ H), enumerate_length.
    + intros k line Hk. split.
      * apply (repl_alto_nth polygons doc doc' H k line Hk).
      * intros E. unfold rewrite_alto_line. now rewrite E.
Qed.

Lemma has_baseline_ok (ops : builtins) (line : page_line) (b : bool) :
  has_baseline ops line = Return b -> baseline_ok ops line = b.
Proof.
  unfold baseline_ok. intros ->. now destruct b.
Qed.

Lemma repl_page_fold (ops : builtins) (polygons : list (option polygon))
    (l : list page_line) :
  forall idx done idx' done',
    ofoldM (repl_page_step ops polygons) l (idx, done) = Return (idx', done') ->
    done' = done ++ page_out ops polygons idx l
    /\ idx' = (idx + length (filter (baseline_ok ops) l))%nat
    /\ forall k line,
        nth_error l k = Some line ->
        baseline_ok ops line = true -> page_coords line <> None ->
        (idx + length (filter (baseline_ok ops) (firstn k l)) < length polygons)%nat.
Proof.
  induction l as [| line l IH]; intros idx done idx' done' H.
  - simpl in H. injection H as <- <-. simpl.
    rewrite app_nil_r. repeat split; [lia |].
    intros k line Hk. destruct k; discriminate.
  - cbn [ofoldM] in H. apply obind_Return in H. destruct H as ([idx1 done1] & H1 & H).
    unfold repl_page_step in H1.
    apply obind_Return in H1. destruct H1 as (ok & Hok & H1).
    pose proof (has_baseline_ok _ _ _ Hok) as Hb.
    destruct (IH _ _ _ _ H) as (Hd & Hi & Hr). clear IH.
    cbn [page_out filter]. rewrite Hb.
    destruct ok.
    + assert (Hstep : idx1 = S idx
                      /\ done1 = done ++ [rewrite_page_line polygons idx line]
                      /\ (page_coords line <> None -> (idx < length polygons)%nat)).
      { unfold rewrite_page_line. destruct (page_coords line) as [c |].
        - destruct (nth_error polygons idx) as [e |] eqn:En; [| discriminate].
          assert (Hlt : (idx < length polygons)%nat)
            by (apply nth_error_Some; congruence).
          rewrite (nth_error_nth polygons idx None En).
          destruct e; injection H1 as <- <-; repeat split; auto.
        - injection H1 as <- <-. repeat split; congruence. }
      destruct Hstep as (-> & -> & Hlt).
      rewrite Hd, <- app_assoc. cbn [app length].
      repeat split; [lia |].
      intros k line' Hk Hb' Hc. destruct k as [| k].
      * simpl in Hk. injection Hk as <-. simpl. rewrite Nat.add_0_r. now apply Hlt.
      * simpl in Hk. cbn [firstn filter]. rewrite Hb. cbn [length].
        specialize (Hr k line' Hk Hb' Hc). lia.
    + injection H1 as <- <-.
      rewrite Hd, <- app_assoc. cbn [app].
      repeat split; [assumption |].
      intros k line' Hk Hb' Hc. destruct k as [| k].
      * simpl in Hk. injection Hk as <-. congruence.
      * simpl in Hk. cbn [firstn filter]. rewrite Hb.
        apply (Hr k line' Hk Hb' Hc).
Qed.

Lemma page_out_nth (ops : builtins) (polygons : list (option polygon))
    (l : list page_line) :
  forall idx k line,
    nth_error l k = Some line ->
    nth_error (page_out ops polygons idx l) k
    = Some (if baseline_ok ops line
            then rewrite_page_line polygons
                   (idx + length (filter (baseline_ok ops) (firstn k l))) line
            else line).
Proof.
  induction l as [| x l IH]; intros idx k line Hk.
  - destruct k; discriminate.
  - destruct k as [| k]; simpl in Hk.
    + injection Hk as <-. cbn [page_out firstn filter length].
      rewrite Nat.add_0_r. destruct (baseline_ok ops x); reflexivity.
    + cbn [page_out firstn filter].
      destruct (baseline_ok ops x) eqn:E; cbn [nth_error length];
        rewrite (IH _ k line Hk); destruct (baseline_ok ops line); try reflexivity.
      do 2 f_equal. lia.
Qed.

Lemma page_out_length (ops : builtins) (polygons : list (option polygon))
    (l : list page_line) :
  forall idx, length (page_out ops polygons idx l) = length l.
Proof.
  induction l as [| x l IH]; intros idx; [reflexivity |].
  cbn [page_out]. destruct (baseline_ok ops x); simpl; now rewrite IH.
Qed.

Lemma repl_page_nth (ops : builtins) (polygons : list (option polygon))
    (doc doc' : list page_line) :
  _repl_page ops polygons doc = Return doc' ->
  length doc' = length doc
  /\ forall k line,
      nth_error doc k = Some line ->
      nth_error doc' k
      = Some (if baseline_ok ops line
              then rewrite_page_line polygons (rank ops doc k) line
              else line)
      /\ (baseline_ok ops line = true -> page_coords line <> None ->
          (rank ops doc k < length polygons)%nat).
Proof.
  unfold _repl_page. intros H.
  apply obind_Return in H. destruct H as ([idx' done'] & H & H').
  injection H' as <-. cbn [snd].
  destruct (repl_page_fold ops polygons doc 0%nat [] idx' done' H) as (-> & _ & Hr).
  cbn [app]. split; [apply page_out_length |].
  intros k line Hk. rewrite (page_out_nth ops polygons doc 0%nat k line Hk).
  cbn [Nat.add]. fold (rank ops doc k).
  split; [reflexivity |].
  intros Hb Hc. apply (Hr k line Hk Hb Hc).
Qed.

(** X17.  When [_repl_page] returns, it has written as many lines as it read;
    a line whose baseline fails its test is left as it is; a line with a
    good baseline and a [Coords] node gets the points of
    [polygons[rank]], where [rank] counts the lines with a good baseline
    before it (not the lines before it), and that entry exists. *)
Theorem _repl_page_by_rank (ops : builtins) (polygons : list (option polygon))
    (doc doc' : list page_line) :
  _repl_page ops polygons doc = Return doc' ->
  length doc' = length doc
  /\ forall k line,
      nth_error doc k = Some line ->
      (baseline_ok ops line = false -> nth_error doc' k = Some line)
      /\ (baseline_ok ops line = true ->
          nth_error doc' k = Some (rewrite_page_line polygons (rank ops doc k) line)
          /\ (page_coords line <> None -> (rank ops doc k < length polygons)%nat)).
Proof.
  intros H. destruct (repl_page_nth ops polygons doc doc' H) as [Hlen Hn].
  split; [exact Hlen |].
  intros k line Hk. destruct (Hn k line Hk) as [Hk' Hr].
  split; intros Hb; rewrite Hb in Hk'; [exact Hk' |].
  split; [exact Hk' | now apply Hr].
Qed.

(** * repolygonize.py: cli followed by the write-back *)

Lemma list_insert_length {A : Type} (idx : nat) (x : A) (o : list A) :
  length (list_insert idx x o) = S (length o).
Proof.
  unfold list_insert. rewrite length_app. cbn [length].
  rewrite <- (firstn_skipn idx o) at 3. rewrite length_app. lia.
Qed.

Lemma reinsert_length {A : Type} (x : A) (passed : list nat) :
  forall o : list A,
    length (fold_left (fun o idx => list_insert idx x o) passed o)
    = (length o + length passed)%nat.
Proof.
  induction passed as [| i passed IH]; intros o; simpl; [lia |].
  rewrite IH, list_insert_length. lia.
Qed.

Lemma passed_from_length (lines : list line) :
  forall k, (length (passed_from k lines) + count_kept lines = length lines)%nat.
Proof.
  unfold count_kept.
  induction lines as [| x lines IH]; intros k; simpl; [reflexivity |].
  destruct (is_passed x); simpl; rewrite <- (IH (S k)); lia.
Qed.

(** What [cli] hands to [repl_fn], when its assertion holds. *)
Lemma cli_doc_Ok (cpe : list baseline -> list (option polygon)) (lines : list line)
    (o : list (option polygon)) :
  cli_doc cpe lines = Ok o ->
  o = aligned lines (cpe (kept_baselines lines))
  /\ length (cpe (kept_baselines lines)) = count_kept lines
  /\ length o = length lines.
Proof.
  unfold cli_doc, enumerate. rewrite classify_fold. cbn [app].
  set (r := cpe (kept_baselines lines)).
  destruct (length (fold_left _ (passed_from 0 lines) r) =? length lines)%nat eqn:E;
    [| discriminate].
  intros H. injection H as <-. apply Nat.eqb_eq in E.
  assert (Hlen : length r = count_kept lines).
  { rewrite reinsert_length in E. pose proof (passed_from_length lines 0). lia. }
  pose proof (reinsert_aligned lines [] r Hlen) as Hr. cbn [app length] in Hr.
  rewrite Hr. repeat split; [assumption |]. now apply aligned_length.
Qed.

(** X18.  After [cli], on an ALTO document with as many lines as
    [seg['lines']], [_repl_alto] returns, and a line with a [BASELINE]
    gets the empty string when the line of the same index was passed over,
    else the points of the polygon computed for the baseline of the line
    of the same index. *)
Theorem cli_then_repl_alto (cpe : list baseline -> list (option polygon))
    (lines : list line) (o : list (option polygon)) (doc : list alto_line) :
  cli_doc cpe lines = Ok o ->
  length doc = length lines ->
  exists doc',
    _repl_alto o doc = Return doc'
    /\ forall k line x b,
        nth_error doc k = Some line ->
        nth_error lines k = Some x ->
        alto_baseline line = Some b ->
        nth_error doc' k
        = Some {| alto_baseline := Some b;
                  alto_polygon :=
                    Some (Some (if is_passed x then EmptyString
                                else alto_entry
                                       (nth (count_kept (firstn k lines))
                                            (cpe (kept_baselines lines)) None))) |}.
Proof.
  intros Hcli Hlen.
  destruct (cli_doc_Ok cpe lines o Hcli) as (Ho & Hr & Hol).
  destruct (repl_alto_total o doc) as (doc' & Hdoc').
  { intros k line Hk _. rewrite Hol, <- Hlen. apply nth_error_Some. congruence. }
  exists doc'. split; [assumption |].
  intros k line x b Hk Hx Hb.
  destruct (repl_alto_nth o doc doc' Hdoc' k line Hk) as [-> _].
  unfold rewrite_alto_line. rewrite Hb. do 4 f_equal.
  assert (Ho' : nth_error o k
                = if is_passed x then Some None
                  else nth_error (cpe (kept_baselines lines))
                                 (count_kept (firstn k lines))).
  { rewrite Ho. now apply aligned_nth. }
  assert (Hko : (k < length o)%nat)
    by (rewrite Hol; apply nth_error_Some; congruence).
  rewrite (nth_error_nth' o None Hko) in Ho'.
  destruct (is_passed x) eqn:Ex.
  - injection Ho' as ->. reflexivity.
  - assert (Hj : (count_kept (firstn k lines) < length (cpe (kept_baselines lines)))%nat).
    { apply nth_error_Some. rewrite <- Ho'. discriminate. }
    rewrite (nth_error_nth' _ None Hj) in Ho'. injection Ho' as ->. reflexivity.
Qed.

Lemma has_baseline_total (ops : builtins) (line : page_line) :
  page_baseline line <> Some None -> exists b, has_baseline ops line = Return b.
Proof.
  unfold has_baseline. intros H.
  destruct (page_baseline line) as [[pts |] |]; [| congruence | eauto].
  destruct (negb (py_isspace ops pts) && negb (String.length pts =? 0)%nat); [| eauto].
  destruct (_parse_page_coords ops pts); eauto.
Qed.

Lemma repl_page_fold_total (ops : builtins) (polygons : list (option polygon))
    (l : list page_line) :
  forall idx done,
    (forall line, In line l -> page_baseline line <> Some None) ->
    (idx + length l <= length polygons)%nat ->
    exists st, ofoldM (repl_page_step ops polygons) l (idx, done) = Return st.
Proof.
  induction l as [| line l IH]; intros idx done Hattr Hlen.
  - simpl. eauto.
  - cbn [ofoldM]. unfold repl_page_step at 1.
    destruct (has_baseline_total ops line (Hattr line (or_introl eq_refl))) as (b & ->).
    cbn [obind]. simpl in Hlen.
    assert (Hattr' : forall line', In line' l -> page_baseline line' <> Some None)
      by (intros; apply Hattr; now right).
    destruct b.
    + destruct (page_coords line).
      * destruct (nth_error polygons idx) as [[pol |] |] eqn:En.
        -- cbn [obind]. apply IH; [assumption | lia].
        -- cbn [obind]. apply IH; [assumption | lia].
        -- apply nth_error_None in En. lia.
      * cbn [obind]. apply IH; [assumption | lia].
    + cbn [obind]. apply IH; [assumption | lia].
Qed.

(** X19.  [_repl_page] returns whenever every [Baseline] node has its attribute
    [points] and [polygons] has at least as many entries as the document
    has lines; so it does after [cli] on a document with as many lines as
    [seg['lines']].  A [Baseline] node without the attribute makes it
    raise [AttributeError]. *)
Theorem _repl_page_returns (ops : builtins) (polygons : list (option polygon))
    (doc : list page_line) :
  ((forall line, In line doc -> page_baseline line <> Some None) ->
   (length doc <= length polygons)%nat ->
   exists doc', _repl_page ops polygons doc = Return doc')
  /\ (forall (cpe : list baseline -> list (option polygon)) (lines : list line),
        cli_doc cpe lines = Ok polygons ->
        length doc = length lines ->
        (forall line, In line doc -> page_baseline line <> Some None) ->
        exists doc', _repl_page ops polygons doc = Return doc')
  /\ (forall pre line post,
        doc = pre ++ line :: post ->
        (forall l, In l pre -> page_baseline l = None) ->
        page_baseline line = Some None ->
        _repl_page ops polygons doc = Throw AttributeError).
Proof.
  assert (Htot : (forall line, In line doc -> page_baseline line <> Some None) ->
                 (length doc <= length polygons)%nat ->
                 exists doc', _repl_page ops polygons doc = Return doc').
  { intros Hattr Hlen. unfold _repl_page.
    destruct (repl_page_fold_total ops polygons doc 0%nat [] Hattr) as (st & ->);
      [simpl; lia |].
    cbn [obind]. eauto. }
  split; [exact Htot |]. split.
  - intros cpe lines Hcli Hlen Hattr.
    destruct (cli_doc_Ok cpe lines polygons Hcli) as (_ & _ & Hol).
    apply Htot; [assumption | lia].
  - intros pre line post -> Hpre Hline. unfold _repl_page.
    assert (G : forall idx done,
               ofoldM (repl_page_step ops polygons) (pre ++ line :: post) (idx, done)
               = Throw AttributeError).
    { clear Htot. induction pre as [| l pre IH]; intros idx done.
      - cbn [app ofoldM]. unfold repl_page_step, has_baseline. now rewrite Hline.
      - cbn [app ofoldM]. unfold repl_page_step at 1, has_baseline.
        rewrite (Hpre l (or_introl eq_refl)). cbn [obind].
        apply IH. intros l' Hl'. apply Hpre. now right. }
    now rewrite G.
Qed.

Lemma filter_all_length {A : Type} (f : A -> bool) (l : list A) :
  (length (filter f l) <= length l)%nat
  /\ (length (filter f l) = length l <-> forall x, In x l -> f x = true).
Proof.
  induction l as [| a l [IH1 IH2]]; simpl.
  - split; [lia |]. split; [intros _ x [] | reflexivity].
  - destruct (f a) eqn:E; simpl.
    + split; [lia |]. split.
      * intros H x [<- | Hx]; [assumption |]. apply IH2; [lia | assumption].
      * intros H. f_equal. apply IH2. intros x Hx. apply H. now right.
    + split; [lia |]. split; [lia |].
      intros H. rewrite (H a (or_introl eq_refl)) in E. discriminate.
Qed.

(** X20.  After [cli], [_repl_page] gives a line with a good baseline and a
    [Coords] node the entry that [cli] computed for the line of index
    [rank], the number of lines with a good baseline before it: the empty
    string when that line was passed over, else the polygon of its
    baseline.  The rank is the index of the line itself exactly when every
    line before it has a good baseline. *)
Theorem cli_then_repl_page (ops : builtins)
    (cpe : list baseline -> list (option polygon)) (lines : list line)
    (o : list (option polygon)) (doc doc' : list page_line) :
  cli_doc cpe lines = Ok o ->
  _repl_page ops o doc = Return doc' ->
  forall k line c,
    nth_error doc k = Some line ->
    baseline_ok ops line = true ->
    page_coords line = Some c ->
    (rank ops doc k <= k)%nat
    /\ (rank ops doc k = k
        <-> forall j l, (j < k)%nat -> nth_error doc j = Some l -> baseline_ok ops l = true)
    /\ exists x,
        nth_error lines (rank ops doc k) = Some x
        /\ nth_error doc' k
           = Some {| page_baseline := page_baseline line;
                     page_coords :=
                       Some (Some (if is_passed x then EmptyString
                                   else page_entry
                                          (nth (count_kept (firstn (rank ops doc k) lines))
                                               (cpe (kept_baselines lines)) None))) |}.
Proof.
  intros Hcli Hrun k line c Hk Hb Hc.
  destruct (cli_doc_Ok cpe lines o Hcli) as (Ho & Hr & Hol).
  destruct (repl_page_nth ops o doc doc' Hrun) as [_ Hn].
  destruct (Hn k line Hk) as [Hk' Hlt].
  rewrite Hb in Hk'. specialize (Hlt Hb). rewrite Hc in Hlt.
  specialize (Hlt ltac:(discriminate)).
  assert (Hkd : (k < length doc)%nat) by (apply nth_error_Some; congruence).
  assert (Hfl : length (firstn k doc) = k) by (rewrite length_firstn; lia).
  destruct (filter_all_length (baseline_ok ops) (firstn k doc)) as [Hle Hall].
  rewrite Hfl in Hle, Hall. fold (rank ops doc k) in Hle, Hall.
  split; [exact Hle |]. split.
  - rewrite Hall. split.
    + intros H j l Hj Hl. apply H.
      apply (nth_error_In (firstn k doc) j). rewrite nth_error_firstn.
      apply Nat.ltb_lt in Hj. now rewrite Hj.
    + intros H x Hx. apply In_nth_error in Hx. destruct Hx as (j & Hj).
      assert (Hjk : (j < k)%nat).
      { rewrite <- Hfl. apply nth_error_Some. congruence. }
      apply (H j x Hjk). rewrite nth_error_firstn in Hj.
      apply Nat.ltb_lt in Hjk. now rewrite Hjk in Hj.
  - set (r := rank ops doc k) in *.
    rewrite Hol in Hlt.
    destruct (nth_error lines r) as [x |] eqn:Ex;
      [| apply nth_error_None in Ex; lia].
    exists x. split; [reflexivity |].
    rewrite Hk'. unfold rewrite_page_line. rewrite Hc. do 4 f_equal.
    assert (Ho' : nth_error o r
                  = if is_passed x then Some None
                    else nth_error (cpe (kept_baselines lines))
                                   (count_kept (firstn r lines))).
    { rewrite Ho. now apply aligned_nth. }
    assert (Hro : (r < length o)%nat) by lia.
    rewrite (nth_error_nth' o None Hro) in Ho'.
    destruct (is_passed x) eqn:Ex'.
    + injection Ho' as ->. reflexivity.
    + assert (Hj : (count_kept (firstn r lines) < length (cpe (kept_baselines lines)))%nat).
      { apply nth_error_Some. rewrite <- Ho'. discriminate. }
      rewrite (nth_error_nth' _ None Hj) in Ho'. injection Ho' as ->. reflexivity.
Qed.

(** * ketos.py, test: characters, errors and accuracy *)

Lemma align_fold (ga : string -> string -> Z * list string * list string)
    (pairs : list (string * string)) :
  forall st,
    let st' := fold_left (align_step ga) pairs st in
    chars st' = chars st + zsum (map (fun xy => Z.of_nat (String.length (snd xy))) pairs)
    /\ error st' = error st + zsum (map (fun xy => fst (fst (ga (snd xy) (fst xy)))) pairs)
    /\ test_batches st' = test_batches st.
Proof.
  induction pairs as [| [x y] pairs IH]; intros st; cbn [fold_left map zsum fold_right].
  - repeat split; lia.
  - destruct (IH (align_step ga st (x, y))) as (Hc & He & Hb).
    cbv zeta in *. rewrite Hc, He, Hb. unfold align_step. cbn [fst snd].
    destruct (ga y x) as [[c a1] a2]. cbn [chars error test_batches fst].
    fold (zsum (map (fun xy => Z.of_nat (String.length (snd xy))) pairs)).
    fold (zsum (map (fun xy => fst (fst (ga (snd xy) (fst xy)))) pairs)).
    repeat split; lia.
Qed.

Lemma test_fold (ga : string -> string -> Z * list string * list string)
    (bs : list test_batch) :
  Forall (fun b => test_aborts b = false) bs ->
  forall st,
    exists st',
      foldM (test_step ga) bs st = Ok st'
      /\ chars st' = chars st + zsum (map batch_chars bs)
      /\ error st' = error st + zsum (map (batch_errors ga) bs).
Proof.
  induction 1 as [| b bs Hb _ IH]; intros st.
  - exists st. cbn. repeat split; lia.
  - cbn [foldM map zsum fold_right].
    fold (zsum (map batch_chars bs)). fold (zsum (map (batch_errors ga) bs)).
    unfold test_step at 1. unfold test_aborts in Hb.
    unfold batch_chars at 1, batch_errors at 1, batch_pairs.
    destruct (predict_string b) as [pred | []]; try discriminate; cbn [bind].
    + destruct (IH (fold_left (align_step ga) (combine pred (test_text b)) st))
        as (st' & Hs & Hc & He).
      destruct (align_fold ga (combine pred (test_text b)) st) as (Hc' & He' & _).
      cbv zeta in *. exists st'. rewrite Hs, Hc, He, Hc', He'. repeat split; lia.
    + match goal with |- context [foldM _ bs ?s] => destruct (IH s) as (st' & Hs & Hc & He) end.
      exists st'. rewrite Hs, Hc, He. cbn [chars error map zsum fold_right].
      repeat split; lia.
    + match goal with |- context [foldM _ bs ?s] => destruct (IH s) as (st' & Hs & Hc & He) end.
      exists st'. rewrite Hs, Hc, He. cbn [chars error map zsum fold_right].
      repeat split; lia.
Qed.

(** X21.  When no batch raises an exception that the loop does not catch, the
    accuracy of a model is [(C - E) / C], where [C] adds up the lengths of
    the target lines paired with a predicted line and [E] the alignment
    costs of these pairs; a batch on which [predict_string] raises
    [FileNotFoundError] or [KrakenInputException] adds nothing.  When [C]
    is zero, as it is when every batch is skipped, the command raises
    [ZeroDivisionError].  With costs that are not negative the accuracy is
    at most one. *)
Theorem test_accuracy_value (ga : string -> string -> Z * list string * list string)
    (ds_loader : list test_batch) :
  Forall (fun b => test_aborts b = false) ds_loader ->
  let C := zsum (map batch_chars ds_loader) in
  let E := zsum (map (batch_errors ga) ds_loader) in
  test_accuracy ga ds_loader
  = (if C =? 0 then Throw ZeroDivisionError
     else Return (inject_Z (C - E) / inject_Z C)%Q)
  /\ ((forall b, In b ds_loader -> exists e, predict_string b = Raise e) ->
      test_accuracy ga ds_loader = Throw ZeroDivisionError)
  /\ ((forall y x, 0 <= fst (fst (ga y x))) ->
      forall a, test_accuracy ga ds_loader = Return a -> (a <= 1)%Q).
Proof.
  intros Hall C E.
  destruct (test_fold ga ds_loader Hall
              {| chars := 0; error := 0; algn_gt := []; algn_pred := [];
                 test_batches := Z.of_nat (length ds_loader) |})
    as (st & Hs & Hc & He).
  cbn [chars error] in Hc, He. fold C in Hc. fold E in He.
  assert (Hacc : test_accuracy ga ds_loader
                 = (if C =? 0 then Throw ZeroDivisionError
                    else Return (inject_Z (C - E) / inject_Z C)%Q)).
  { unfold test_accuracy, test_loop. rewrite Hs, Hc, He.
    replace (0 + C) with C by lia. replace (0 + E) with E by lia. reflexivity. }
  assert (HCnn : 0 <= C).
  { unfold C. apply zsum_nonneg. apply Forall_forall. intros z Hz.
    apply in_map_iff in Hz. destruct Hz as (b & <- & _).
    unfold batch_chars. apply zsum_nonneg. apply Forall_forall. intros z Hz.
    apply in_map_iff in Hz. destruct Hz as (xy & <- & _). lia. }
  split; [exact Hacc |]. split.
  - intros Hraise. rewrite Hacc.
    assert (HC0 : C = 0).
    { unfold C. assert (G : forall l, (forall b, In b l -> batch_chars b = 0) ->
                                      zsum (map batch_chars l) = 0).
      { induction l as [| b l IH]; intros H; simpl; [reflexivity |].
        rewrite (H b (or_introl eq_refl)), IH; [reflexivity |].
        intros; apply H; now right. }
      apply G. intros b Hb. destruct (Hraise b Hb) as (e & He').
      unfold batch_chars, batch_pairs. now rewrite He'. }
    now rewrite HC0.
  - intros Hcost a Ha. rewrite Hacc in Ha.
    destruct (C =? 0) eqn:E0; [discriminate |]. injection Ha as <-.
    apply Z.eqb_neq in E0.
    assert (HE : 0 <= E).
    { unfold E. apply zsum_nonneg. apply Forall_forall. intros z Hz.
      apply in_map_iff in Hz. destruct Hz as (b & <- & _).
      unfold batch_errors. apply zsum_nonneg. apply Forall_forall. intros z Hz.
      apply in_map_iff in Hz. destruct Hz as (xy & <- & _). apply Hcost. }
    apply Qle_shift_div_r; [apply inject_Z_pos; lia |].
    rewrite Qmult_1_l. apply inject_Z_le. lia.
Qed.

(** * ketos.py, segtest: the table of the classes *)




(** * ketos.py, segtrain, train and segtest: the device *)

Lemma str_no_colon (z : Z) : occurrences ":" (str z) = 0%nat.
Proof.
  apply str_chars. simpl. intros H.
  repeat (destruct H as [H | H]; [discriminate H |]). exact H.
Qed.

(** X23.  The device is [None] exactly for ["cpu"]; ["cuda:"] followed by a
    number becomes the list of that number; a string that starts with
    ["cuda"], holds no colon and is no number for [int], like ["cuda"]
    itself, makes the command raise [ValueError]; nothing else is
    raised, and only for a string that starts with ["cuda"]. *)
Theorem device_of_spec (ops : builtins) (device : string) :
  (device_of ops device = Return device_none <-> device = "cpu"%string)
  /\ (forall n, py_int ops (str n) = Some n ->
                device = ("cuda:" ++ str n)%string ->
                device_of ops device = Return (device_list [n]))
  /\ (String.prefix "cuda" device = true ->
      occurrences ":" device = 0%nat ->
      py_int ops device = None ->
      device_of ops device = Throw ValueError)
  /\ (forall e, device_of ops device = Throw e ->
                e = ValueError /\ String.prefix "cuda" device = true).
Proof.
  unfold device_of. repeat split.
  - destruct (String.eqb_spec device "cpu") as [E | E]; [auto |].
    destruct (String.prefix "cuda" device); [| discriminate].
    unfold int_or_raise. destruct (py_int ops _); discriminate.
  - intros ->. reflexivity.
  - intros n Hn ->.
    change ("cuda:" ++ str n)%string with ("cuda" ++ String ":" (str n))%string.
    cbn [String.eqb Ascii.eqb Bool.eqb append String.prefix].
    change (String "c" (String "u" (String "d" (String "a" (String ":" (str n))))))
      with ("cuda" ++ String ":" (str n))%string.
    rewrite split_app_sep by reflexivity.
    rewrite (split_none ":" (str n) (str_no_colon n)).
    cbn [last]. unfold int_or_raise. rewrite Hn. reflexivity.
  - intros Hp Hc Hi.
    destruct (String.eqb_spec device "cpu") as [-> | _]; [discriminate Hp |].
    rewrite Hp, (split_none ":" device Hc). cbn [last].
    unfold int_or_raise. now rewrite Hi.
  - destruct (String.eqb device "cpu"); [discriminate |].
    destruct (String.prefix "cuda" device); [| discriminate].
    unfold int_or_raise in H. destruct (py_int ops _); [discriminate |].
    now injection H.
  - destruct (String.eqb device "cpu"); [discriminate |].
    destruct (String.prefix "cuda" device); [reflexivity | discriminate].
Qed.

(** * The further properties at concrete inputs *)

Lemma run_loop_batches_count_witness :
  exists st,
    run_loop [0; 1]%nat [] (1 # 2) [missing_page; two_class_page] = Ok st
    /\ batches st = Z.of_nat (length (pages st)).
Proof.
  eexists. split; [vm_compute; reflexivity |].
  apply (run_loop_batches_count [0; 1]%nat [] (1 # 2) [missing_page; two_class_page]).
  vm_compute; reflexivity.
Defined.

Lemma segtest_all_skipped_witness :
  let bl := [("default"%string, 0%nat); ("other"%string, 1%nat)] in
  let rg := @nil (string * nat) in
  dict_get String.eqb "baselines"%string two_class_mapping = Ok bl
  /\ dict_get String.eqb "regions"%string two_class_mapping = Ok rg
  /\ [missing_page; missing_page] <> []
  /\ Forall (fun b => skipped (map snd bl) (map snd rg) (1 # 2) b = true)
            [missing_page; missing_page]
  /\ run_loop (map snd bl) (map snd rg) (1 # 2) [missing_page; missing_page]
     = Ok {| pages := []; batches := 0 |}
  /\ segtest two_class_mapping (1 # 2) [missing_page; missing_page] = Raise RuntimeError.
Proof.
  intros bl rg.
  assert (H1 : dict_get String.eqb "baselines"%string two_class_mapping = Ok bl)
    by reflexivity.
  assert (H2 : dict_get String.eqb "regions"%string two_class_mapping = Ok rg)
    by reflexivity.
  assert (H3 : [missing_page; missing_page] <> []) by discriminate.
  assert (H4 : Forall (fun b => skipped (map snd bl) (map snd rg) (1 # 2) b = true)
                      [missing_page; missing_page]).
  { repeat constructor. }
  split; [exact H1 |]. split; [exact H2 |]. split; [exact H3 |]. split; [exact H4 |].
  exact (segtest_all_skipped two_class_mapping bl rg (1 # 2) [missing_page; missing_page]
           H1 H2 H3 H4).
Defined.

Lemma segtest_single_region_class_witness :
  let bl := [("default"%string, 0%nat)] in
  dict_get String.eqb "baselines"%string one_region_mapping = Ok bl
  /\ dict_get String.eqb "regions"%string one_region_mapping = Ok [("text"%string, 1%nat)]
  /\ (exists e, segtest one_region_mapping (1 # 2) [two_class_page] = Raise e)
  /\ forall st m b,
      run_loop (map snd bl) [1%nat] (1 # 2) [two_class_page] = Ok st ->
      global_metrics (pages st) = Ok m ->
      category_report (fun n => (1 <? n)%nat) (inv_class_names_of one_region_mapping)
                      (pages st) (map snd bl) Baselines = Ok b ->
      segtest one_region_mapping (1 # 2) [two_class_page] = Raise KeyError.
Proof.
  intros bl.
  split; [reflexivity |]. split; [reflexivity |].
  apply (segtest_single_region_class one_region_mapping bl "text"%string 1%nat (1 # 2)
           [two_class_page]); reflexivity.
Defined.

Lemma inv_class_names_lookup_witness :
  NoDup (all_indices two_class_mapping)
  /\ In ("baselines"%string, [("default"%string, 0%nat); ("other"%string, 1%nat)])
        two_class_mapping
  /\ In ("other"%string, 1%nat) [("default"%string, 0%nat); ("other"%string, 1%nat)]
  /\ dict_get Nat.eqb 1%nat (inv_class_names_of two_class_mapping) = Ok "other"%string.
Proof.
  assert (H1 : NoDup (all_indices two_class_mapping)).
  { repeat constructor; simpl; intuition lia. }
  assert (H2 : In ("baselines"%string, [("default"%string, 0%nat); ("other"%string, 1%nat)])
                  two_class_mapping).
  { right. left. reflexivity. }
  assert (H3 : In ("other"%string, 1%nat)
                  [("default"%string, 0%nat); ("other"%string, 1%nat)]).
  { right. left. reflexivity. }
  split; [exact H1 |]. split; [exact H2 |]. split; [exact H3 |].
  exact (inv_class_names_lookup two_class_mapping "baselines"%string _ "other"%string 1%nat
           H1 H2 H3).
Defined.

Lemma two_class_page_rect : rect_batch two_class_page.
Proof.
  intros pred H. injection H as <-. repeat constructor.
Qed.

Lemma page_corrects_identity_witness :
  wf_batch 2 two_class_page
  /\ rect_batch two_class_page
  /\ page_stats [0; 1]%nat [] (1 # 2) two_class_page = Ok two_class_stats
  /\ forall c, (c < 2)%nat ->
       nth c (corrects two_class_stats) 0
       = all_n two_class_stats - nth c (unions two_class_stats) 0
         + nth c (intersections two_class_stats) 0.
Proof.
  assert (H1 : wf_batch 2 two_class_page).
  { intros pred H. injection H as <-. split; reflexivity. }
  split; [exact H1 |]. split; [exact two_class_page_rect |].
  split; [vm_compute; reflexivity |].
  apply (page_corrects_identity 2 [0; 1]%nat [] (1 # 2) two_class_page two_class_stats H1
           two_class_page_rect).
  vm_compute; reflexivity.
Defined.





Lemma class_independent_iu_in_unit_interval_witness :
  run_loop [0; 1]%nat [] (1 # 2) [two_class_page] = Ok two_class_state
  /\ pages two_class_state <> []
  /\ category_idx [0; 1]%nat [] Baselines <> []
  /\ exists v, class_independent_iu Baselines (pages two_class_state) = Ok v
               /\ unit_value v.
Proof.
  split; [vm_compute; reflexivity |].
  split; [discriminate |].
  split; [discriminate |].
  apply (class_independent_iu_in_unit_interval [0; 1]%nat [] (1 # 2) [two_class_page]
           two_class_state Baselines).
  - vm_compute; reflexivity.
  - discriminate.
  - discriminate.
Defined.

Lemma two_class_confusion : Forall (has_confusion Baselines 2) (pages two_class_state).
Proof.
  constructor; [| constructor].
  eexists. split; [vm_compute; reflexivity |].
  split; [reflexivity |]. split; [reflexivity |].
  intros i j. cbn.
  repeat (match goal with
          | |- context [match ?x with _ => _ end] => destruct x; cbn
          end);
    lia.
Qed.

Lemma ov_iu_value_in_unit_interval_witness :
  Forall (has_confusion Baselines 2) (pages two_class_state)
  /\ (0 <= ov_iu_value Baselines (pages two_class_state) 0 0 <= 1)%Q.
Proof.
  split; [exact two_class_confusion |].
  apply (ov_iu_value_in_unit_interval Baselines 2 (pages two_class_state) 0 0).
  exact two_class_confusion.
Defined.

Lemma two_class_pages_ok : Forall (page_ok 2) (pages two_class_state).
Proof.
  apply (run_loop_pages_ok 2 [0; 1]%nat [] (1 # 2) [two_class_page] two_class_state).
  - exact two_class_page_wf.
  - vm_compute; reflexivity.
Qed.

Lemma freq_iu_is_sum_of_class_iu_witness :
  pages two_class_state <> []
  /\ Forall (page_ok 2) (pages two_class_state)
  /\ zsum (map zsum (map cls_cnt (pages two_class_state))) <> 0
  /\ exists m,
      global_metrics (pages two_class_state) = Ok m
      /\ exists ius v,
          class_iu m = map Some ius /\ freq_iu m = Some v /\ (v == qsum ius)%Q.
Proof.
  split; [discriminate |]. split; [exact two_class_pages_ok |].
  split; [vm_compute; discriminate |].
  eexists. split; [vm_compute; reflexivity |].
  apply (freq_iu_is_sum_of_class_iu 2 (pages two_class_state)).
  - discriminate.
  - exact two_class_pages_ok.
  - vm_compute; reflexivity.
  - vm_compute; discriminate.
Defined.

Lemma _validate_merging_rejects_witness :
  Exists (fun m => occurrences ":" m <> 1%nat) ["a:b"; "c"; "d:e:f"]%string
  /\ _validate_merging ["a:b"; "c"; "d:e:f"]%string = Throw BadParameter.
Proof.
  assert (H : Exists (fun m => occurrences ":" m <> 1%nat) ["a:b"; "c"; "d:e:f"]%string).
  { right. left. vm_compute. discriminate. }
  split; [exact H |].
  exact (proj2 (proj1 (_validate_merging_rejects ["a:b"; "c"; "d:e:f"]%string)) H).
Defined.

Lemma _validate_merging_lookup_witness :
  let value := ["default:a"; "other:b"; "default:c"]%string in
  let d := [("a", "default"); ("b", "other"); ("c", "default")]%string in
  _validate_merging value = Return (Some d)
  /\ value = ["default:a"]%string ++ "other:b"%string :: ["default:c"]%string
  /\ split ":" "other:b" = ["other"; "b"]%string
  /\ Forall (fun m' => forall k', split ":" m' <> [k'; "b"%string]) ["default:c"]%string
  /\ dict_get String.eqb "b"%string d = Ok "other"%string.
Proof.
  intros value d.
  assert (H1 : _validate_merging value = Return (Some d)) by (vm_compute; reflexivity).
  assert (H2 : value = ["default:a"]%string ++ "other:b"%string :: ["default:c"]%string)
    by reflexivity.
  assert (H3 : split ":" "other:b" = ["other"; "b"]%string) by reflexivity.
  assert (H4 : Forall (fun m' => forall k', split ":" m' <> [k'; "b"%string])
                      ["default:c"]%string).
  { constructor; [| constructor]. intros k' H. vm_compute in H. discriminate. }
  split; [exact H1 |]. split; [exact H2 |]. split; [exact H3 |]. split; [exact H4 |].
  exact (_validate_merging_lookup value ["default:a"]%string ["default:c"]%string
           "other:b"%string "other"%string "b"%string d H1 H2 H3 H4).
Defined.

Lemma freq_to_val_check_spec_witness :
  (exists z, z < 0 /\ (-2 # 1 == inject_Z z)%Q)
  /\ freq_to_val_check (-2 # 1) = Return (val_check_interval (-2 # 1))
  /\ freq_to_val_check (5 # 2) = Throw BadOptionUsage
  /\ freq_to_val_check (3 # 1) = Return (check_val_every_n_epoch 3)
  /\ ((3 # 1 == inject_Z 3)%Q /\ 2 <= 3).
Proof.
  assert (H : exists z, z < 0 /\ (-2 # 1 == inject_Z z)%Q).
  { exists (-2). split; [lia | reflexivity]. }
  split; [exact H |].
  split; [exact (proj2 (proj2 (proj2 (freq_to_val_check_spec (-2 # 1)))) H) |].
  assert (H3 : freq_to_val_check (3 # 1) = Return (check_val_every_n_epoch 3))
    by (vm_compute; reflexivity).
  split; [vm_compute; reflexivity |]. split; [exact H3 |].
  exact (proj1 (proj2 (freq_to_val_check_spec (3 # 1))) 3 H3).
Defined.

Lemma _parse_page_coords_no_repeat_witness :
  let pts := [(0, 0); (5, 5); (0, 0)] in
  _parse_page_coords plain_builtins "0,0 0,0 5,5 5,5 0,0" = Return pts
  /\ forall i p q, nth_error pts i = Some p -> nth_error pts (S i) = Some q -> p <> q.
Proof.
  intros pts.
  assert (H : _parse_page_coords plain_builtins "0,0 0,0 5,5 5,5 0,0" = Return pts)
    by (vm_compute; reflexivity).
  split; [exact H |].
  exact (_parse_page_coords_no_repeat plain_builtins "0,0 0,0 5,5 5,5 0,0" pts H).
Defined.

Lemma parse_written_points_witness :
  let pol := [(0, 0); (0, 0); (50, -20)] in
  (forall z, py_int plain_builtins (str z) = Some z)
  /\ pol <> []
  /\ _parse_page_coords plain_builtins (page_points pol) = Return (groupby_keys pol)
  /\ _parse_page_coords plain_builtins (alto_points pol) = Return (groupby_keys pol).
Proof.
  intros pol.
  assert (H1 : forall z, py_int plain_builtins (str z) = Some z) by exact decimal_int_str.
  assert (H2 : pol <> []) by discriminate.
  split; [exact H1 |]. split; [exact H2 |].
  exact (parse_written_points plain_builtins pol H1 H2).
Defined.

Lemma _repl_alto_by_index_witness :
  let polygons := [None; Some [(0, 0); (50, 0); (50, 20)]; None; None] in
  (forall k line, nth_error alto_doc_example k = Some line ->
                  alto_baseline line <> None -> (k < length polygons)%nat)
  /\ exists doc',
      _repl_alto polygons alto_doc_example = Return doc'
      /\ length doc' = length alto_doc_example
      /\ forall k line,
          nth_error alto_doc_example k = Some line ->
          nth_error doc' k = Some (rewrite_alto_line polygons k line)
          /\ (alto_baseline line = None -> rewrite_alto_line polygons k line = line).
Proof.
  intros polygons.
  assert (H : forall k line, nth_error alto_doc_example k = Some line ->
                             alto_baseline line <> None -> (k < length polygons)%nat).
  { intros k line Hk _. change (length polygons) with (length alto_doc_example).
    apply nth_error_Some. congruence. }
  split; [exact H |].
  destruct (proj2 (proj1 (_repl_alto_by_index polygons alto_doc_example)) H) as (doc' & Hd).
  exists doc'. split; [exact Hd |].
  exact (proj2 (_repl_alto_by_index polygons alto_doc_example) doc' Hd).
Defined.

Lemma _repl_page_by_rank_witness :
  let polygons := [Some [(0, 0); (50, 0); (50, 20)]; None] in
  exists doc',
    _repl_page plain_builtins polygons page_doc_example = Return doc'
    /\ length doc' = length page_doc_example
    /\ forall k line,
        nth_error page_doc_example k = Some line ->
        (baseline_ok plain_builtins line = false -> nth_error doc' k = Some line)
        /\ (baseline_ok plain_builtins line = true ->
            nth_error doc' k
            = Some (rewrite_page_line polygons (rank plain_builtins page_doc_example k) line)
            /\ (page_coords line <> None ->
                (rank plain_builtins page_doc_example k < length polygons)%nat)).
Proof.
  intros polygons. eexists. split; [vm_compute; reflexivity |].
  apply (_repl_page_by_rank plain_builtins polygons page_doc_example).
  vm_compute; reflexivity.
Defined.

Lemma cli_then_repl_alto_witness :
  exists o,
    cli_doc constant_polygonizer four_lines = Ok o
    /\ length alto_doc_example = length four_lines
    /\ exists doc',
        _repl_alto o alto_doc_example = Return doc'
        /\ forall k line x b,
            nth_error alto_doc_example k = Some line ->
            nth_error four_lines k = Some x ->
            alto_baseline line = Some b ->
            nth_error doc' k
            = Some {| alto_baseline := Some b;
                      alto_polygon :=
                        Some (Some (if is_passed x then EmptyString
                                    else alto_entry
                                           (nth (count_kept (firstn k four_lines))
                                                (constant_polygonizer
                                                   (kept_baselines four_lines)) None))) |}.
Proof.
  eexists. split; [vm_compute; reflexivity |].
  split; [reflexivity |].
  eapply (cli_then_repl_alto constant_polygonizer four_lines).
  - vm_compute; reflexivity.
  - reflexivity.
Defined.

Lemma cli_then_repl_page_witness :
  exists o doc',
    cli_doc constant_polygonizer four_lines = Ok o
    /\ _repl_page plain_builtins o page_doc_example = Return doc'
    /\ forall k line c,
        nth_error page_doc_example k = Some line ->
        baseline_ok plain_builtins line = true ->
        page_coords line = Some c ->
        (rank plain_builtins page_doc_example k <= k)%nat
        /\ (rank plain_builtins page_doc_example k = k
            <-> forall j l, (j < k)%nat -> nth_error page_doc_example j = Some l ->
                            baseline_ok plain_builtins l = true)
        /\ exists x,
            nth_error four_lines (rank plain_builtins page_doc_example k) = Some x
            /\ nth_error doc' k
               = Some {| page_baseline := page_baseline line;
                         page_coords :=
                           Some (Some (if is_passed x then EmptyString
                                       else page_entry
                                              (nth (count_kept
                                                      (firstn (rank plain_builtins
                                                                    page_doc_example k)
                                                              four_lines))
                                                   (constant_polygonizer
                                                      (kept_baselines four_lines))
                                                   None))) |}.
Proof.
  eexists. eexists. split; [vm_compute; reflexivity |].
  split; [vm_compute; reflexivity |].
  eapply (cli_then_repl_page plain_builtins constant_polygonizer four_lines).
  - vm_compute; reflexivity.
  - vm_compute; reflexivity.
Defined.

Lemma _repl_page_returns_witness :
  let polygons := [None; Some [(0, 0); (50, 0); (50, 20)]; None; None] in
  (forall line, In line page_doc_example -> page_baseline line <> Some None)
  /\ (length page_doc_example <= length polygons)%nat
  /\ (exists doc', _repl_page plain_builtins polygons page_doc_example = Return doc')
  /\ _repl_page plain_builtins polygons
       (firstn 1 page_doc_example
        ++ {| page_baseline := Some None; page_coords := None |} :: skipn 1 page_doc_example)
     = Throw AttributeError.
Proof.
  intros polygons.
  assert (H1 : forall line, In line page_doc_example -> page_baseline line <> Some None).
  { intros line H. simpl in H.
    repeat (destruct H as [<- | H]; [discriminate |]). destruct H. }
  assert (H2 : (length page_doc_example <= length polygons)%nat) by (simpl; lia).
  split; [exact H1 |]. split; [exact H2 |].
  split; [exact (proj1 (_repl_page_returns plain_builtins polygons page_doc_example) H1 H2) |].
  apply (proj2 (proj2 (_repl_page_returns plain_builtins polygons
                         (firstn 1 page_doc_example
                          ++ {| page_baseline := Some None; page_coords := None |}
                          :: skipn 1 page_doc_example)))
           (firstn 1 page_doc_example)
           {| page_baseline := Some None; page_coords := None |}
           (skipn 1 page_doc_example)).
  - reflexivity.
  - intros l H. simpl in H. destruct H as [<- | []]. reflexivity.
  - reflexivity.
Defined.

Lemma test_accuracy_value_witness :
  Forall (fun b => test_aborts b = false) test_batches_example
  /\ (let C := zsum (map batch_chars test_batches_example) in
      let E := zsum (map (batch_errors unit_align) test_batches_example) in
      test_accuracy unit_align test_batches_example
      = (if C =? 0 then Throw ZeroDivisionError
         else Return (inject_Z (C - E) / inject_Z C)%Q)
      /\ ((forall b, In b test_batches_example -> exists e, predict_string b = Raise e) ->
          test_accuracy unit_align test_batches_example = Throw ZeroDivisionError)
      /\ ((forall y x, 0 <= fst (fst (unit_align y x))) ->
          forall a, test_accuracy unit_align test_batches_example = Return a -> (a <= 1)%Q)).
Proof.
  assert (H : Forall (fun b => test_aborts b = false) test_batches_example).
  { repeat constructor. }
  split; [exact H |].
  exact (test_accuracy_value unit_align test_batches_example H).
Defined.


Lemma device_of_spec_witness :
  py_int plain_builtins (str 1) = Some 1
  /\ device_of plain_builtins "cuda:1" = Return (device_list [1])
  /\ String.prefix "cuda" "cuda" = true
  /\ occurrences ":" "cuda" = 0%nat
  /\ py_int plain_builtins "cuda" = None
  /\ device_of plain_builtins "cuda" = Throw ValueError.
Proof.
  assert (H1 : py_int plain_builtins (str 1) = Some 1) by reflexivity.
  assert (H2 : String.prefix "cuda" "cuda" = true) by reflexivity.
  assert (H3 : occurrences ":" "cuda" = 0%nat) by reflexivity.
  assert (H4 : py_int plain_builtins "cuda" = None) by reflexivity.
  split; [exact H1 |].
  split; [exact (proj1 (proj2 (device_of_spec plain_builtins "cuda:1")) 1 H1 eq_refl) |].
  split; [exact H2 |]. split; [exact H3 |]. split; [exact H4 |].
  exact (proj1 (proj2 (proj2 (device_of_spec plain_builtins "cuda"))) H2 H3 H4).
Defined.
